(** * Mechanical keyboard sound engine (KeySoundEngine)

    A shallow embedding of the sound engine of the 3d-ProductScene
    configurator: the profile table [PROFILES], the lazily created audio
    context with its shared noise buffer ([ensureCtx], [buildNoiseBuffer]),
    the randomisation [jitter] and the two public operations [playDown] and
    [playUp].

    Numbers.  A JavaScript number is a double.  The parameters the engine
    computes with (frequencies, gains, times) are modelled as rationals,
    extended with [NaN] for what arithmetic on [undefined] gives; the samples
    of the noise buffer, which go through [Math.exp], are modelled as real
    numbers.  Rounding of doubles is not modelled.

    Host.  The browser is an oracle ([Host]): it answers
    [new AudioContext()], [Math.random()], [ctx.state] and
    [ctx.currentTime].  The engine's own fields and the host's counters make
    up the [World] that every operation threads; an operation either returns
    or throws, and in both cases leaves a world and the list of effects it had
    on the audio graph.

    Web Audio.  What the engine calls behaves as the Web Audio API and WebIDL
    define it: [createBuffer] converts its length to an unsigned integer by
    truncation and refuses a buffer without a frame; the setters of audio
    parameters and the times of [stop] take a finite number and throw a
    [TypeError] otherwise; [resume] is a request, and the engine drops its
    promise.  The clock of a context is never negative, so the range errors
    of negative times are left out.

    Configurator.  Around the engine: the store of the configurator
    ([OPTIONS], [selectOption], [toggleSound]) with the price the panel
    shows, the layout of the keys ([generateKeys]) and the key map
    ([KEY_MAP]), and the keyboard and pointer handlers of the 3D model, which
    keep the set of pressed keys and call the engine with the switch and the
    sound setting of the store.  The animation of the scene is left out. *)

From stdpp Require Import gmap strings list.
From Stdlib Require Import QArith Qround Reals Qreals Lia Psatz.

Local Open Scope Q_scope.

(** ** JavaScript numbers *)

Module Num.

(** The numbers the engine computes: finite values and [NaN]. *)
Inductive t : Type :=
| Fin (q : Q)
| NaN.

Definition add (a b : t) : t :=
  match a, b with
  | Fin x, Fin y => Fin (x + y)
  | _, _ => NaN
  end.

Definition sub (a b : t) : t :=
  match a, b with
  | Fin x, Fin y => Fin (x - y)
  | _, _ => NaN
  end.

Definition mul (a b : t) : t :=
  match a, b with
  | Fin x, Fin y => Fin (x * y)
  | _, _ => NaN
  end.

(** [a > b]; every comparison with [NaN] is false. *)
Definition gt (a b : t) : bool :=
  match a, b with
  | Fin x, Fin y => if Qlt_le_dec y x then true else false
  | _, _ => false
  end.

End Num.

Coercion Num.Fin : Q >-> Num.t.

Declare Scope num_scope.
Delimit Scope num_scope with num.
Bind Scope num_scope with Num.t.
Infix "+" := Num.add : num_scope.
Infix "-" := Num.sub : num_scope.
Infix "*" := Num.mul : num_scope.
Infix ">?" := Num.gt (at level 70, no associativity) : num_scope.

(** ** Switch sound profiles *)

Record SwitchProfile : Type := {
  baseFreq : Q;     (* thock body frequency (Hz) *)
  clickFreq : Q;    (* click frequency, 0 = no click (Hz) *)
  filterFreq : Q;   (* bandpass filter center (Hz) *)
  filterQ : Q;      (* filter resonance *)
  thockDecay : Q;   (* thock decay time (s) *)
  clickDecay : Q;   (* click decay time (s) *)
  volume : Q        (* master volume 0-1 *)
}.

Definition red : SwitchProfile :=
  {| baseFreq := 160; clickFreq := 0; filterFreq := 600; filterQ := 1.2;
     thockDecay := 0.06; clickDecay := 0; volume := 0.25 |}.

Definition blue : SwitchProfile :=
  {| baseFreq := 240; clickFreq := 4200; filterFreq := 1800; filterQ := 2.0;
     thockDecay := 0.08; clickDecay := 0.03; volume := 0.32 |}.

Definition brown : SwitchProfile :=
  {| baseFreq := 200; clickFreq := 2200; filterFreq := 1000; filterQ := 1.4;
     thockDecay := 0.07; clickDecay := 0.015; volume := 0.28 |}.

Definition speed : SwitchProfile :=
  {| baseFreq := 280; clickFreq := 0; filterFreq := 1200; filterQ := 1.0;
     thockDecay := 0.035; clickDecay := 0; volume := 0.2 |}.

Definition black : SwitchProfile :=
  {| baseFreq := 110; clickFreq := 0; filterFreq := 400; filterQ := 1.5;
     thockDecay := 0.1; clickDecay := 0; volume := 0.3 |}.

(** The own properties of the object literal [PROFILES]. *)
Definition PROFILES : gmap string SwitchProfile :=
  <["red" := red]> (<["blue" := blue]> (<["brown" := brown]>
  (<["speed" := speed]> (<["black" := black]> ∅)))).

(** [PROFILES] is an object literal, so its prototype is [Object.prototype]:
    a property that is not its own is looked up there.  These are the
    property names of [Object.prototype]; each holds a function, except
    [__proto__], an accessor that yields [Object.prototype] itself. *)
Definition Object_prototype : gset string :=
  {[ "constructor"; "hasOwnProperty"; "isPrototypeOf";
     "propertyIsEnumerable"; "toLocaleString"; "toString"; "valueOf";
     "__proto__"; "__defineGetter__"; "__defineSetter__";
     "__lookupGetter__"; "__lookupSetter__" ]}.

(** What [PROFILES[switchId]] can be when it is not [undefined]. *)
Inductive Value : Type :=
| Profile (p : SwitchProfile)
| Inherited (name : string).

(** [PROFILES[switchId]]; [None] is [undefined]. *)
Definition PROFILES_get (switchId : string) : option Value :=
  match PROFILES !! switchId with
  | Some p => Some (Profile p)
  | None =>
      if decide (switchId ∈ Object_prototype)
      then Some (Inherited switchId)
      else None
  end.

(** [PROFILES[switchId] ?? PROFILES.red], the first statement after
    [ensureCtx] in [playDown] and [playUp]. *)
Definition lookupProfile (switchId : string) : Value :=
  default (Profile red) (PROFILES_get switchId).

(** [p.field]: a profile has the field; a function or [Object.prototype]
    has no such property, the read gives [undefined], which every use in the
    engine converts to a number, [NaN]. *)
Definition prop (p : Value) (field : SwitchProfile → Q) : Num.t :=
  match p with
  | Profile sp => Num.Fin (field sp)
  | Inherited _ => Num.NaN
  end.

(** The domains of the data model: frequencies, resonance and body decay
    positive, click frequency and click decay non-negative, volume in
    (0, 1]. *)
Definition valid_profile (p : SwitchProfile) : Prop :=
  0 < baseFreq p ∧ 0 <= clickFreq p ∧ 0 < filterFreq p ∧ 0 < filterQ p ∧
  0 < thockDecay p ∧ 0 <= clickDecay p ∧ 0 < volume p ∧ volume p <= 1.

Definition recognized (switchId : string) : Prop :=
  switchId ∈ ["red"; "blue"; "brown"; "speed"; "black"].

(** ** The audio host *)

(** An [AudioContext] object: which construction made it, and its rate. *)
Record AudioContext : Type := {
  ctx_id : nat;
  sampleRate : Q
}.

(** A one-channel [AudioBuffer]: its rate and the samples of channel 0. *)
Record AudioBuffer : Type := {
  buf_sampleRate : Q;
  channelData : list R
}.

Inductive OscillatorType : Type := sine | square.

(** [g.gain.setValueAtTime(initial, now)] followed by
    [g.gain.exponentialRampToValueAtTime(target, endTime)]. *)
Record Envelope : Type := {
  initial : Q;
  target : Q;
  endTime : Q
}.

(** A source wired to the destination and started: the noise buffer through
    a bandpass filter and a gain, or an oscillator through a gain. *)
Inductive Layer : Type :=
| NoiseBody (buffer : AudioBuffer) (frequency resonance : Q)
            (gain : Envelope) (start stop : Q)
| Tone (type : OscillatorType) (frequency : Q)
       (gain : Envelope) (start stop : Q).

(** What a call does to the audio graph. *)
Inductive Effect : Type :=
| Resume (c : AudioContext)
| Start (l : Layer).

(** The answers of the browser, by number of the request. *)
Record Host : Type := {
  construct : nat → option Q;  (* [new AudioContext()]: the rate of the new
                                  context, [None] when the constructor throws *)
  random : nat → Q;            (* [Math.random()] *)
  suspended : nat → bool;      (* [ctx.state === "suspended"] *)
  clock : nat → Q              (* [ctx.currentTime] *)
}.

(** The fields of the engine and the counters of the host. *)
Record World : Type := {
  ctx : option AudioContext;         (* [this.ctx], [None] is [null] *)
  noiseBuffer : option AudioBuffer;  (* [this.noiseBuffer] *)
  attempts : nat;   (* calls of [new AudioContext()] *)
  contexts : nat;   (* contexts constructed *)
  buffers : nat;    (* buffers created *)
  draws : nat;      (* calls of [Math.random()] *)
  reads : nat       (* reads of [ctx.state] and [ctx.currentTime] *)
}.

(** [new KeySoundEngine()] in a fresh page. *)
Definition initial_world : World :=
  {| ctx := None; noiseBuffer := None; attempts := 0; contexts := 0;
     buffers := 0; draws := 0; reads := 0 |}.

Inductive Exn : Type :=
| ConstructionError   (* [new AudioContext()] refused by the host *)
| NotSupportedError   (* [createBuffer] with no frame *)
| TypeError.          (* a non-finite number for an audio parameter or time,
                         a property read on [null] *)

(** ** Computations: state, effects on the graph, exceptions *)

Inductive Outcome (A : Type) : Type :=
| Returns (a : A) (w : World) (out : list Effect)
| Throws (e : Exn) (w : World) (out : list Effect).
Arguments Returns {A} a w out.
Arguments Throws {A} e w out.

Definition M (A : Type) : Type := World → Outcome A.

Definition world_of {A} (o : Outcome A) : World :=
  match o with Returns _ w _ | Throws _ w _ => w end.

Definition effects_of {A} (o : Outcome A) : list Effect :=
  match o with Returns _ _ out | Throws _ _ out => out end.

Definition returns {A} (o : Outcome A) : bool :=
  match o with Returns _ _ _ => true | Throws _ _ _ => false end.

Definition ret {A} (a : A) : M A := λ w, Returns a w [].

Definition bind {A B} (m : M A) (k : A → M B) : M B := λ w,
  match m w with
  | Returns a w1 out1 =>
      match k a w1 with
      | Returns b w2 out2 => Returns b w2 (out1 ++ out2)
      | Throws e w2 out2 => Throws e w2 (out1 ++ out2)
      end
  | Throws e w1 out1 => Throws e w1 out1
  end.

Definition throw {A} (e : Exn) : M A := λ w, Throws e w [].

Definition emit (e : Effect) : M unit := λ w, Returns () w [e].

Notation "x <- m ;; k" := (bind m (λ x, k))
  (at level 60, m at next level, right associativity,
   format "'[v' x  <-  m  ;; '/' k ']'").
Notation "m ;;; k" := (bind m (λ _, k))
  (at level 60, right associativity, format "'[v' m  ;;; '/' k ']'").

(** [for (const i of indices) acc = body(i, acc)]. *)
Fixpoint for_each {A} (body : nat → A → M A) (indices : list nat) (acc : A)
  : M A :=
  match indices with
  | [] => ret acc
  | i :: rest => acc' <- body i acc ;; for_each body rest acc'
  end.

(** The layers among the effects, in the order they were started. *)
Fixpoint layers (out : list Effect) : list Layer :=
  match out with
  | [] => []
  | Start l :: rest => l :: layers rest
  | Resume _ :: rest => layers rest
  end.

Definition is_noise_body (l : Layer) : bool :=
  match l with NoiseBody _ _ _ _ _ _ => true | Tone _ _ _ _ _ => false end.

Definition is_thud (l : Layer) : bool :=
  match l with Tone sine _ _ _ _ => true | _ => false end.

Definition is_click (l : Layer) : bool :=
  match l with Tone square _ _ _ _ => true | _ => false end.

(** ** Host operations *)

Section Engine.

Variable host : Host.

Definition get_ctx : M (option AudioContext) := λ w, Returns (ctx w) w [].

Definition set_ctx (c : option AudioContext) : M unit := λ w,
  Returns ()
    {| ctx := c; noiseBuffer := noiseBuffer w; attempts := attempts w;
       contexts := contexts w; buffers := buffers w; draws := draws w;
       reads := reads w |} [].

Definition get_noiseBuffer : M (option AudioBuffer) := λ w,
  Returns (noiseBuffer w) w [].

Definition set_noiseBuffer (b : option AudioBuffer) : M unit := λ w,
  Returns ()
    {| ctx := ctx w; noiseBuffer := b; attempts := attempts w;
       contexts := contexts w; buffers := buffers w; draws := draws w;
       reads := reads w |} [].

(** [new AudioContext()]: the host may refuse, the constructor then
    throws. *)
Definition new_AudioContext : M AudioContext := λ w,
  match construct host (attempts w) with
  | Some rate =>
      Returns {| ctx_id := attempts w; sampleRate := rate |}
        {| ctx := ctx w; noiseBuffer := noiseBuffer w;
           attempts := S (attempts w); contexts := S (contexts w);
           buffers := buffers w; draws := draws w; reads := reads w |} []
  | None =>
      Throws ConstructionError
        {| ctx := ctx w; noiseBuffer := noiseBuffer w;
           attempts := S (attempts w); contexts := contexts w;
           buffers := buffers w; draws := draws w; reads := reads w |} []
  end.

(** [ctx.createBuffer(1, length, sampleRate)]: [length] is converted to an
    unsigned integer by truncation; a buffer without a frame is refused;
    the new buffer is silent. *)
Definition createBuffer (c : AudioContext) (length rate : Q) : M AudioBuffer :=
  λ w,
  match Z.to_nat (Qfloor length) with
  | O => Throws NotSupportedError w []
  | frames =>
      Returns {| buf_sampleRate := rate; channelData := replicate frames 0%R |}
        {| ctx := ctx w; noiseBuffer := noiseBuffer w; attempts := attempts w;
           contexts := contexts w; buffers := S (buffers w);
           draws := draws w; reads := reads w |} []
  end.

(** [Math.random()]. *)
Definition Math_random : M Q := λ w,
  Returns (random host (draws w))
    {| ctx := ctx w; noiseBuffer := noiseBuffer w; attempts := attempts w;
       contexts := contexts w; buffers := buffers w; draws := S (draws w);
       reads := reads w |} [].

Definition tick (w : World) : World :=
  {| ctx := ctx w; noiseBuffer := noiseBuffer w; attempts := attempts w;
     contexts := contexts w; buffers := buffers w; draws := draws w;
     reads := S (reads w) |}.

(** [c.state === "suspended"]. *)
Definition is_suspended (c : AudioContext) : M bool := λ w,
  Returns (suspended host (reads w)) (tick w) [].

(** [c.currentTime]. *)
Definition currentTime (c : AudioContext) : M Q := λ w,
  Returns (clock host (reads w)) (tick w) [].

(** [c.resume()]: a request, its promise is dropped. *)
Definition resume (c : AudioContext) : M unit := emit (Resume c).

(** An audio parameter ([param.value = x], [setValueAtTime],
    [exponentialRampToValueAtTime]) and a time ([stop]) take a finite
    number; anything else is a [TypeError]. *)
Definition finite (x : Num.t) : M Q :=
  match x with
  | Num.Fin q => ret q
  | Num.NaN => throw TypeError
  end.

(** ** The engine *)

(** [Math.exp(-i / (len * 0.25))]. *)
Definition envelope (len : Q) (i : nat) : R :=
  exp (- INR i / Q2R (len * 0.25)).

(** [(r * 2 - 1) * Math.exp(-i / (len * 0.25))] for [r = Math.random()]. *)
Definition shaped_noise (len : Q) (i : nat) (r : Q) : R :=
  (Q2R (r * 2 - 1) * envelope len i)%R.

(** The indices of [for (let i = 0; i < len; i++)]. *)
Definition loop_indices (len : Q) : list nat :=
  seq 0 (Z.to_nat (Qceiling len)).

(** Pre-generate a short noise buffer (about 100 ms) for thock sounds.
    [data[i] = x] on a typed array writes nothing when [i] is out of
    range, as the list insert does. *)
Definition buildNoiseBuffer : M unit :=
  c <- get_ctx ;;
  match c with
  | None => ret ()
  | Some c =>
      let len := sampleRate c * 0.1 in
      buf <- createBuffer c len (sampleRate c) ;;
      data <- for_each
                (λ i data, r <- Math_random ;;
                           ret (<[i := shaped_noise len i r]> data))
                (loop_indices len) (channelData buf) ;;
      set_noiseBuffer
        (Some {| buf_sampleRate := buf_sampleRate buf; channelData := data |})
  end.

(** Lazily create / resume the AudioContext. *)
Definition ensureCtx : M AudioContext :=
  c0 <- get_ctx ;;
  match c0 with
  | None =>
      c <- new_AudioContext ;;
      set_ctx (Some c) ;;;
      buildNoiseBuffer
  | Some _ => ret ()
  end ;;;
  c1 <- get_ctx ;;
  match c1 with
  | None => throw TypeError
  | Some c =>
      s <- is_suspended c ;;
      (if s then resume c else ret ()) ;;;
      ret c
  end.

(** The value of [jitter(value, amount)] when [Math.random()] gives [r]. *)
Definition jitter_value (value amount r : Q) : Q :=
  value * (1 + (r - 0.5) * 2 * amount).

(** Slight randomisation for natural feel. *)
Definition jitter (value : Num.t) (amount : Q) : M Num.t :=
  r <- Math_random ;;
  ret (value * (1 + (r - 0.5) * 2 * amount))%num.

(** The default of [amount]. *)
Definition default_amount : Q := 0.04.

(** [node.start(now)] and [node.stop(stop)] of a wired source, as one
    effect: the layer carries both times.  By the time of [stop] its argument
    is finite, the ramp before it took the same sum. *)
Definition start_layer (l : Layer) : M unit := emit (Start l).

(** Play key-DOWN sound for given switch type. *)
Definition playDown (switchId : string) : M unit :=
  c <- ensureCtx ;;
  let p := lookupProfile switchId in
  now <- currentTime c ;;
  (* 1 - noise thock (body of the sound) *)
  nb <- get_noiseBuffer ;;
  match nb with
  | Some buffer =>
      f <- jitter (prop p filterFreq) default_amount ;;
      frequency <- finite f ;;
      resonance <- finite (prop p filterQ) ;;
      g <- jitter (prop p volume) default_amount ;;
      g0 <- finite g ;;
      e <- finite (now + prop p thockDecay) ;;
      stop <- finite (now + 0.15) ;;
      start_layer
        (NoiseBody buffer frequency resonance
           {| initial := g0; target := 0.001; endTime := e |} now stop)
  | None => ret ()
  end ;;;
  (* 2 - tonal thud (low sine for bottom-out) *)
  f <- jitter (prop p baseFreq) default_amount ;;
  frequency <- finite f ;;
  g0 <- finite (prop p volume * 0.45) ;;
  e <- finite (now + 0.04) ;;
  stop <- finite (now + 0.05) ;;
  start_layer
    (Tone sine frequency
       {| initial := g0; target := 0.001; endTime := e |} now stop) ;;;
  (* 3 - click (clicky / tactile only) *)
  if (prop p clickFreq >? 0)%num then
    f <- jitter (prop p clickFreq) 0.06 ;;
    frequency <- finite f ;;
    g0 <- finite (prop p volume * 0.25) ;;
    e <- finite (now + prop p clickDecay) ;;
    stop <- finite (now + prop p clickDecay + 0.005) ;;
    start_layer
      (Tone square frequency
         {| initial := g0; target := 0.001; endTime := e |} now stop)
  else ret ().

(** Play key-UP sound (lighter, higher-pitched thock). *)
Definition playUp (switchId : string) : M unit :=
  c <- ensureCtx ;;
  let p := lookupProfile switchId in
  now <- currentTime c ;;
  nb <- get_noiseBuffer ;;
  match nb with
  | Some buffer =>
      f <- jitter (prop p filterFreq * 1.4) default_amount ;;
      frequency <- finite f ;;
      resonance <- finite (prop p filterQ * 0.8) ;;
      g0 <- finite (prop p volume * 0.35) ;;
      e <- finite (now + prop p thockDecay * 0.6) ;;
      stop <- finite (now + 0.1) ;;
      start_layer
        (NoiseBody buffer frequency resonance
           {| initial := g0; target := 0.001; endTime := e |} now stop)
  | None => ret ()
  end ;;;
  (* clicky switches also click on release *)
  if (prop p clickFreq >? 0)%num then
    f <- jitter (prop p clickFreq * 0.8) default_amount ;;
    frequency <- finite f ;;
    g0 <- finite (prop p volume * 0.15) ;;
    e <- finite (now + prop p clickDecay * 0.7) ;;
    stop <- finite (now + prop p clickDecay * 0.7 + 0.005) ;;
    start_layer
      (Tone square frequency
         {| initial := g0; target := 0.001; endTime := e |} now stop)
  else ret ().

End Engine.

(** ** Sequences of calls *)

(** The two public operations. *)
Inductive Call : Type :=
| Down (switchId : string)
| Up (switchId : string).

Definition perform (host : Host) (c : Call) : M unit :=
  match c with
  | Down switchId => playDown host switchId
  | Up switchId => playUp host switchId
  end.

(** The engine is a singleton that outlives its calls: the next call starts
    in the world the last one left, also when the last one threw. *)
Definition run (host : Host) (calls : list Call) (w : World) : World :=
  foldl (λ w c, world_of (perform host c w)) w calls.

(** [ensureCtx] called [n] times in a row. *)
Definition ensure_times (host : Host) (n : nat) (w : World) : World :=
  Nat.iter n (λ w, world_of (ensureCtx host w)) w.

(** The context exists, or the host grants one that can hold the noise
    buffer (a tenth of a second has at least one frame). *)
Definition device_available (host : Host) (w : World) : bool :=
  match ctx w with
  | Some _ => true
  | None =>
      match construct host (attempts w) with
      | Some rate => Qle_bool 10 rate
      | None => false
      end
  end.

(** Every context the host grants runs at 10 Hz at least (browsers run
    theirs at thousands of Hz). *)
Definition rates_ok (host : Host) : Prop :=
  ∀ n rate, construct host n = Some rate → 10 <= rate.

(** [Math.random()] is in [0, 1). *)
Definition random_ok (host : Host) : Prop :=
  ∀ n, 0 <= random host n ∧ random host n < 1.

(** The loop of [buildNoiseBuffer] as a function of the draws: the [k]-th
    iteration writes at its index with the draw number [d + k]. *)
Fixpoint fill (host : Host) (len : Q) (indices : list nat) (d : nat)
    (data : list R) : list R :=
  match indices with
  | [] => data
  | i :: rest =>
      fill host len rest (S d) (<[i := shaped_noise len i (random host d)]> data)
  end.

(** The world [ensureCtx] leaves when it constructs a context of rate
    [rate] in [w]. *)
Definition constructed (host : Host) (rate : Q) (w : World) : World :=
  let len := rate * 0.1 in
  {| ctx := Some {| ctx_id := attempts w; sampleRate := rate |};
     noiseBuffer :=
       Some {| buf_sampleRate := rate;
               channelData :=
                 fill host len (loop_indices len) (draws w)
                   (replicate (Z.to_nat (Qfloor len)) 0%R) |};
     attempts := S (attempts w);
     contexts := S (contexts w);
     buffers := S (buffers w);
     draws := (length (loop_indices len) + draws w)%nat;
     reads := S (reads w) |}.

(** The world a refused construction leaves. *)
Definition refused (w : World) : World :=
  {| ctx := ctx w; noiseBuffer := noiseBuffer w; attempts := S (attempts w);
     contexts := contexts w; buffers := buffers w; draws := draws w;
     reads := reads w |}.

(** The rounding that the specification names for the buffer length, as
    [Math.round] does it (half up). *)
Definition Math_round (x : Q) : Z := Qfloor (x + 0.5).

(** The envelope as the specification words it, with the buffer length [N]
    in the place of [len]. *)
Definition envelope_of_length (N i : nat) : R :=
  exp (- INR i / (INR N * 0.25)).

(** ** Notions used to state the properties *)

(** The effects of the second half of [ensureCtx] in [w]. *)
Definition resumed (host : Host) (c : AudioContext) (w : World) : list Effect :=
  if suspended host (reads w) then [Resume c] else [].

(** The click of [playDown] for a profile, with the draw number [d]. *)
Definition click_down (host : Host) (p : SwitchProfile) (now : Q) (d : nat)
  : list Layer :=
  if Qlt_le_dec 0 (clickFreq p) then
    [Tone square (jitter_value (clickFreq p) 0.06 (random host d))
       {| initial := volume p * 0.25; target := 0.001;
          endTime := now + clickDecay p |} now (now + clickDecay p + 0.005)]
  else [].

(** The layers of [playDown] for a profile, in the world [w1] that
    [ensureCtx] left. *)
Definition down_layers (host : Host) (p : SwitchProfile) (w1 : World)
  : list Layer :=
  let now := clock host (reads w1) in
  let d := draws w1 in
  match noiseBuffer w1 with
  | Some buffer =>
      [NoiseBody buffer
         (jitter_value (filterFreq p) default_amount (random host d))
         (filterQ p)
         {| initial := jitter_value (volume p) default_amount
                         (random host (1 + d));
            target := 0.001; endTime := now + thockDecay p |}
         now (now + 0.15);
       Tone sine
         (jitter_value (baseFreq p) default_amount (random host (2 + d)))
         {| initial := volume p * 0.45; target := 0.001;
            endTime := now + 0.04 |} now (now + 0.05)]
      ++ click_down host p now (3 + d)
  | None =>
      [Tone sine (jitter_value (baseFreq p) default_amount (random host d))
         {| initial := volume p * 0.45; target := 0.001;
            endTime := now + 0.04 |} now (now + 0.05)]
      ++ click_down host p now (1 + d)
  end.

(** The click of [playUp] for a profile. *)
Definition click_up (host : Host) (p : SwitchProfile) (now : Q) (d : nat)
  : list Layer :=
  if Qlt_le_dec 0 (clickFreq p) then
    [Tone square
       (jitter_value (clickFreq p * 0.8) default_amount (random host d))
       {| initial := volume p * 0.15; target := 0.001;
          endTime := now + clickDecay p * 0.7 |}
       now (now + clickDecay p * 0.7 + 0.005)]
  else [].

(** The layers of [playUp] for a profile. *)
Definition up_layers (host : Host) (p : SwitchProfile) (w1 : World)
  : list Layer :=
  let now := clock host (reads w1) in
  let d := draws w1 in
  match noiseBuffer w1 with
  | Some buffer =>
      [NoiseBody buffer
         (jitter_value (filterFreq p * 1.4) default_amount (random host d))
         (filterQ p * 0.8)
         {| initial := volume p * 0.35; target := 0.001;
            endTime := now + thockDecay p * 0.6 |}
         now (now + 0.1)]
      ++ click_up host p now (1 + d)
  | None => click_up host p now d
  end.

(** The fields of the engine and what the host has constructed for it. *)
Definition engine_fields (w : World) :=
  (ctx w, noiseBuffer w, attempts w, contexts w, buffers w).

(** [m] changes neither the fields of the engine nor what the host has
    constructed. *)
Definition keeps {A} (m : M A) : Prop :=
  ∀ w, engine_fields (world_of (m w)) = engine_fields w.

(** Every layer [m] starts satisfies [P]. *)
Definition emits {A} (P : Layer → Prop) (m : M A) : Prop :=
  ∀ w, Forall P (layers (effects_of (m w))).

(** The constructions match the fields: nothing is constructed while
    [this.ctx] is null, one context once it is set, and one buffer once
    [this.noiseBuffer] is set. *)
Definition inv (w : World) : Prop :=
  match ctx w with
  | None => noiseBuffer w = None ∧ contexts w = 0%nat ∧ buffers w = 0%nat
  | Some _ =>
      contexts w = 1%nat ∧
      buffers w = match noiseBuffer w with Some _ => 1%nat | None => 0%nat end
  end.

(** Where the context is set the buffer is set. *)
Definition ready (w : World) : Prop :=
  is_Some (ctx w) → is_Some (noiseBuffer w).

(** Hosts of the examples: one that grants a context of the given rate and
    whose [Math.random()] always gives [r], one that refuses. *)
Definition granting (rate r : Q) : Host :=
  {| construct := λ _, Some rate; random := λ _, r;
     suspended := λ _, false; clock := λ _, 0 |}.

Definition refusing : Host :=
  {| construct := λ _, None; random := λ _, 0.5;
     suspended := λ _, false; clock := λ _, 0 |}.

(** * The configurator around the engine *)

(** ** The store (useConfiguratorStore) *)

Module Store.

Inductive Category : Type := body | keycaps | switches.

Record ConfigOption : Type := {
  id : string;
  name : string;
  color : string;
  description : option string
}.

Definition OPTIONS (category : Category) : list ConfigOption :=
  match category with
  | body =>
      [ {| id := "midnight"; name := "Midnight Black"; color := "#1a1a2e";
           description := None |};
        {| id := "silver"; name := "Space Silver"; color := "#8d8d92";
           description := None |};
        {| id := "arctic"; name := "Arctic White"; color := "#e8e6e3";
           description := None |};
        {| id := "navy"; name := "Navy Blue"; color := "#1e3a5f";
           description := None |};
        {| id := "burgundy"; name := "Burgundy Red"; color := "#722f37";
           description := None |};
        {| id := "forest"; name := "Forest Green"; color := "#1b4332";
           description := None |};
        {| id := "rose"; name := "Rose Gold"; color := "#b76e79";
           description := None |} ]
  | keycaps =>
      [ {| id := "charcoal"; name := "Charcoal"; color := "#2d2d2d";
           description := None |};
        {| id := "cream"; name := "Cream White"; color := "#f5f0e8";
           description := None |};
        {| id := "matcha"; name := "Retro Matcha"; color := "#7d9b76";
           description := None |};
        {| id := "lavender"; name := "Lavender Haze"; color := "#b8a9c9";
           description := None |};
        {| id := "coral"; name := "Coral Pink"; color := "#e07a5f";
           description := None |};
        {| id := "sky"; name := "Sky Blue"; color := "#87ceeb";
           description := None |};
        {| id := "sunset"; name := "Sunset Orange"; color := "#f4845f";
           description := None |} ]
  | switches =>
      [ {| id := "red"; name := "Cherry MX Red"; color := "#e63946";
           description := Some "Linear · 45g · Sessiz" |};
        {| id := "blue"; name := "Cherry MX Blue"; color := "#457b9d";
           description := Some "Clicky · 50g · Tıkırtılı" |};
        {| id := "brown"; name := "Cherry MX Brown"; color := "#8b5e3c";
           description := Some "Tactile · 45g · Dokunsal" |};
        {| id := "speed"; name := "Speed Silver"; color := "#adb5bd";
           description := Some "Linear · 45g · Hızlı" |};
        {| id := "black"; name := "Cherry MX Black"; color := "#212529";
           description := Some "Linear · 60g · Ağır" |} ]
  end.

(** [selectedOptions: Record<Category, string>]: one id per category. *)
Record Selected : Type := {
  of_body : string;
  of_keycaps : string;
  of_switches : string
}.

(** [selectedOptions[category]]. *)
Definition selected (category : Category) (s : Selected) : string :=
  match category with
  | body => of_body s
  | keycaps => of_keycaps s
  | switches => of_switches s
  end.

(** [{ ...selectedOptions, [category]: optionId }]. *)
Definition with_selected (category : Category) (optionId : string)
    (s : Selected) : Selected :=
  match category with
  | body =>
      {| of_body := optionId; of_keycaps := of_keycaps s;
         of_switches := of_switches s |}
  | keycaps =>
      {| of_body := of_body s; of_keycaps := optionId;
         of_switches := of_switches s |}
  | switches =>
      {| of_body := of_body s; of_keycaps := of_keycaps s;
         of_switches := optionId |}
  end.

Record ConfiguratorState : Type := {
  activeCategory : Category;
  bodyColor : string;
  keycapColor : string;
  switchColor : string;
  selectedOptions : Selected;
  soundEnabled : bool
}.

(** [OPTIONS[category].find((o) => o.id === optionId)]. *)
Definition find_option (category : Category) (optionId : string)
  : option ConfigOption :=
  List.find (λ o, String.eqb (id o) optionId) (OPTIONS category).

(** [OPTIONS[category][0]]; none of the three lists is empty. *)
Definition first (category : Category) : ConfigOption :=
  match OPTIONS category with
  | o :: _ => o
  | [] => {| id := ""; name := ""; color := ""; description := None |}
  end.

(** The state the store is created with: the first option of every
    category, sound on. *)
Definition initial : ConfiguratorState :=
  {| activeCategory := body;
     bodyColor := color (first body);
     keycapColor := color (first keycaps);
     switchColor := color (first switches);
     selectedOptions :=
       {| of_body := id (first body); of_keycaps := id (first keycaps);
          of_switches := id (first switches) |};
     soundEnabled := true |}.

Definition setActiveCategory (category : Category)
    (state : ConfiguratorState) : ConfiguratorState :=
  {| activeCategory := category;
     bodyColor := bodyColor state;
     keycapColor := keycapColor state;
     switchColor := switchColor state;
     selectedOptions := selectedOptions state;
     soundEnabled := soundEnabled state |}.

Definition selectOption (category : Category) (optionId : string)
    (state : ConfiguratorState) : ConfiguratorState :=
  match find_option category optionId with
  | None => state
  | Some option =>
      {| activeCategory := activeCategory state;
         bodyColor :=
           match category with
           | body => color option
           | _ => bodyColor state
           end;
         keycapColor :=
           match category with
           | keycaps => color option
           | _ => keycapColor state
           end;
         switchColor :=
           match category with
           | switches => color option
           | _ => switchColor state
           end;
         selectedOptions :=
           with_selected category optionId (selectedOptions state);
         soundEnabled := soundEnabled state |}
  end.

Definition toggleSound (state : ConfiguratorState) : ConfiguratorState :=
  {| activeCategory := activeCategory state;
     bodyColor := bodyColor state;
     keycapColor := keycapColor state;
     switchColor := switchColor state;
     selectedOptions := selectedOptions state;
     soundEnabled := negb (soundEnabled state) |}.

(** What the interface can ask of the store. *)
Inductive Action : Type :=
| SetActiveCategory (category : Category)
| SelectOption (category : Category) (optionId : string)
| ToggleSound.

Definition act (a : Action) : ConfiguratorState → ConfiguratorState :=
  match a with
  | SetActiveCategory category => setActiveCategory category
  | SelectOption category optionId => selectOption category optionId
  | ToggleSound => toggleSound
  end.

(** The store after a sequence of actions. *)
Definition after (actions : list Action) (state : ConfiguratorState)
  : ConfiguratorState :=
  foldl (λ state a, act a state) state actions.

(** The color the store holds for a category. *)
Definition color_of (category : Category) (state : ConfiguratorState)
  : string :=
  match category with
  | body => bodyColor state
  | keycaps => keycapColor state
  | switches => switchColor state
  end.

(** The dynamic price of the summary footer. *)
Definition PREMIUM_BODIES : gset string := {[ "burgundy"; "forest"; "rose" ]}.
Definition PREMIUM_KEYCAPS : gset string :=
  {[ "matcha"; "lavender"; "sunset" ]}.
Definition PREMIUM_SWITCHES : gset string := {[ "speed"; "black" ]}.

Definition price (selectedOptions : Selected) : Z :=
  let total := 349%Z in
  let total :=
    if decide (of_body selectedOptions ∈ PREMIUM_BODIES)
    then (total + 30)%Z else total in
  let total :=
    if decide (of_keycaps selectedOptions ∈ PREMIUM_KEYCAPS)
    then (total + 25)%Z else total in
  let total :=
    if decide (of_switches selectedOptions ∈ PREMIUM_SWITCHES)
    then (total + 15)%Z else total in
  total.

(** What one category adds to the price. *)
Definition surcharge (category : Category) (optionId : string) : Z :=
  match category with
  | body => if decide (optionId ∈ PREMIUM_BODIES) then 30%Z else 0%Z
  | keycaps => if decide (optionId ∈ PREMIUM_KEYCAPS) then 25%Z else 0%Z
  | switches => if decide (optionId ∈ PREMIUM_SWITCHES) then 15%Z else 0%Z
  end.

End Store.

(** ** The keyboard model (KeyboardModel in Scene) *)

Module Layout.

Definition UNIT : Q := 0.36.
Definition KEY_GAP : Q := 0.04.
Definition KEY_H : Q := 0.13.
Definition BODY_H : Q := 0.35.
Definition ROW_Y : list Q := [0.018; 0.008; 0; 0.004; 0.01].

Record KeyData : Type := {
  x : Q;
  z : Q;
  w : Q;
  d : Q;
  row : nat
}.

(** The widths of the keys, row by row, in units. *)
Definition rows : list (list Q) :=
  [ [1; 1; 1; 1; 1; 1; 1; 1; 1; 1; 1; 1; 1; 2];
    [1.5; 1; 1; 1; 1; 1; 1; 1; 1; 1; 1; 1; 1; 1.5];
    [1.75; 1; 1; 1; 1; 1; 1; 1; 1; 1; 1; 1; 2.25];
    [2.25; 1; 1; 1; 1; 1; 1; 1; 1; 1; 1; 2.75];
    [1.25; 1.25; 1.25; 6.25; 1.25; 1.25; 1.25] ].

Definition TOTAL_W : Q := 15.

(** The inner loop of [generateKeys]: [row.forEach((kw) => ...)] for the row
    number [ri] of [nrows], from [cursor]. *)
Fixpoint layoutRow (nrows ri : nat) (cursor : Q) (widths : list Q)
  : list KeyData :=
  match widths with
  | [] => []
  | kw :: rest =>
      {| x := (cursor + kw / 2) * UNIT - (TOTAL_W * UNIT) / 2;
         z := (inject_Z (Z.of_nat ri)
               - (inject_Z (Z.of_nat nrows) - 1) / 2) * UNIT;
         w := kw * UNIT - KEY_GAP;
         d := UNIT - KEY_GAP;
         row := ri |}
      :: layoutRow nrows ri (cursor + kw) rest
  end.

(** The outer loop, from the row number [ri]. *)
Fixpoint layoutRows (nrows ri : nat) (rest : list (list Q)) : list KeyData :=
  match rest with
  | [] => []
  | widths :: rest =>
      layoutRow nrows ri 0 widths ++ layoutRows nrows (S ri) rest
  end.

Definition generateKeys : list KeyData := layoutRows (length rows) 0 rows.

(** The case. *)
Definition bodyW : Q := 15 * UNIT + 0.3.
Definition bodyD : Q := 5 * UNIT + 0.25.

(** [BODY_H / 2 + KEY_H / 2 + 0.015 + (ROW_Y[k.row] ?? 0)]: the height of
    the center of a key at rest. *)
Definition baseY (k : KeyData) : Q :=
  BODY_H / 2 + KEY_H / 2 + 0.015 + default 0 (ROW_Y !! row k).

(** The edges of a key. *)
Definition left (k : KeyData) : Q := x k - w k / 2.
Definition right (k : KeyData) : Q := x k + w k / 2.
Definition back (k : KeyData) : Q := z k - d k / 2.
Definition front (k : KeyData) : Q := z k + d k / 2.

End Layout.

Module Keyboard.

(** The own properties of the object literal [KEY_MAP]. *)
Definition KEY_LIST : list (string * nat) :=
  [ ("Backquote", 0); ("Digit1", 1); ("Digit2", 2); ("Digit3", 3);
    ("Digit4", 4); ("Digit5", 5); ("Digit6", 6); ("Digit7", 7);
    ("Digit8", 8); ("Digit9", 9); ("Digit0", 10); ("Minus", 11);
    ("Equal", 12); ("Backspace", 13);
    ("Tab", 14); ("KeyQ", 15); ("KeyW", 16); ("KeyE", 17); ("KeyR", 18);
    ("KeyT", 19); ("KeyY", 20); ("KeyU", 21); ("KeyI", 22); ("KeyO", 23);
    ("KeyP", 24); ("BracketLeft", 25); ("BracketRight", 26);
    ("Backslash", 27);
    ("CapsLock", 28); ("KeyA", 29); ("KeyS", 30); ("KeyD", 31);
    ("KeyF", 32); ("KeyG", 33); ("KeyH", 34); ("KeyJ", 35); ("KeyK", 36);
    ("KeyL", 37); ("Semicolon", 38); ("Quote", 39); ("Enter", 40);
    ("ShiftLeft", 41); ("KeyZ", 42); ("KeyX", 43); ("KeyC", 44);
    ("KeyV", 45); ("KeyB", 46); ("KeyN", 47); ("KeyM", 48); ("Comma", 49);
    ("Period", 50); ("Slash", 51); ("ShiftRight", 52);
    ("ControlLeft", 53); ("MetaLeft", 54); ("AltLeft", 55); ("Space", 56);
    ("AltRight", 57); ("ContextMenu", 58); ("ControlRight", 59) ]%nat.

Definition KEY_MAP : gmap string nat := list_to_map KEY_LIST.

(** What the set of pressed keys can hold: a key number, or the value that
    [KEY_MAP] inherits from [Object.prototype] under a name. *)
Definition Pressed : Type := (nat + string)%type.

(** [KEY_MAP[code]]; [None] is [undefined].  [KEY_MAP] is an object literal
    as [PROFILES] is. *)
Definition KEY_MAP_get (code : string) : option Pressed :=
  match KEY_MAP !! code with
  | Some idx => Some (inl idx)
  | None =>
      if decide (code ∈ Object_prototype) then Some (inr code) else None
  end.

Record KeyboardEvent : Type := {
  code : string;
  repeat : bool
}.

(** [pressedKeys.current] and the engine, a singleton of the page. *)
Record Scene : Type := {
  pressedKeys : gset Pressed;
  engine : World
}.

Definition initial : Scene :=
  {| pressedKeys := ∅; engine := initial_world |}.

(** What a handler leaves: the scene, what it did to the audio graph, and
    the exception that left it, if any. *)
Record Handled : Type := {
  scene : Scene;
  sound : list Effect;
  thrown : option Exn
}.

(** A handler that ends without a call to the engine. *)
Definition quiet (pressed : gset Pressed) (w : World) : Handled :=
  {| scene := {| pressedKeys := pressed; engine := w |};
     sound := []; thrown := None |}.

(** A handler that ends with a call to the engine. *)
Definition sounded (pressed : gset Pressed) (o : Outcome unit) : Handled :=
  match o with
  | Returns _ w out =>
      {| scene := {| pressedKeys := pressed; engine := w |};
         sound := out; thrown := None |}
  | Throws e w out =>
      {| scene := {| pressedKeys := pressed; engine := w |};
         sound := out; thrown := Some e |}
  end.

Section Handlers.

Variable host : Host.
Variable switchId : string.   (* [s.selectedOptions.switches] *)
Variable isSoundOn : bool.    (* [s.soundEnabled] *)

(** The [keydown] listener. *)
Definition down (e : KeyboardEvent) (sc : Scene) : Handled :=
  match KEY_MAP_get (code e) with
  | None => quiet (pressedKeys sc) (engine sc)
  | Some idx =>
      if negb (repeat e) then
        let pressed := {[ idx ]} ∪ pressedKeys sc in
        if isSoundOn
        then sounded pressed (playDown host switchId (engine sc))
        else quiet pressed (engine sc)
      else quiet (pressedKeys sc) (engine sc)
  end.

(** The [keyup] listener. *)
Definition up (e : KeyboardEvent) (sc : Scene) : Handled :=
  match KEY_MAP_get (code e) with
  | None => quiet (pressedKeys sc) (engine sc)
  | Some idx =>
      let pressed := pressedKeys sc ∖ {[ idx ]} in
      if isSoundOn
      then sounded pressed (playUp host switchId (engine sc))
      else quiet pressed (engine sc)
  end.

(** 3D click on the keycap number [i]. *)
Definition handleKeyPointerDown (i : nat) (sc : Scene) : Handled :=
  let pressed := {[ inl i ]} ∪ pressedKeys sc in
  if isSoundOn
  then sounded pressed (playDown host switchId (engine sc))
  else quiet pressed (engine sc).

Definition handleKeyPointerUp (i : nat) (sc : Scene) : Handled :=
  let pressed := pressedKeys sc ∖ {[ inl i ]} in
  if isSoundOn
  then sounded pressed (playUp host switchId (engine sc))
  else quiet pressed (engine sc).

(** [onPointerLeave] of the keycap number [i]. *)
Definition handlePointerLeave (i : nat) (sc : Scene) : Handled :=
  quiet (pressedKeys sc ∖ {[ inl i ]}) (engine sc).

End Handlers.

(** What the page can send to the keyboard model. *)
Inductive Input : Type :=
| KeyDown (e : KeyboardEvent)
| KeyUp (e : KeyboardEvent)
| PointerDown (i : nat)
| PointerUp (i : nat)
| PointerLeave (i : nat).

Definition handle (host : Host) (switchId : string) (isSoundOn : bool)
    (input : Input) : Scene → Handled :=
  match input with
  | KeyDown e => down host switchId isSoundOn e
  | KeyUp e => up host switchId isSoundOn e
  | PointerDown i => handleKeyPointerDown host switchId isSoundOn i
  | PointerUp i => handleKeyPointerUp host switchId isSoundOn i
  | PointerLeave i => handlePointerLeave i
  end.

(** The scene after a sequence of inputs; an exception that leaves a
    handler ends that handler only. *)
Definition handle_all (host : Host) (switchId : string) (isSoundOn : bool)
    (inputs : list Input) (sc : Scene) : Scene :=
  foldl (λ sc input, scene (handle host switchId isSoundOn input sc))
    sc inputs.

(** The handlers as the component wires them to a state of the store. *)
Definition wired (host : Host) (state : Store.ConfiguratorState)
    (input : Input) : Scene → Handled :=
  handle host (Store.of_switches (Store.selectedOptions state))
    (Store.soundEnabled state) input.

(** An input whose key is one of the model: a key code of [KEY_MAP], or a
    pointer on one of the keycaps. *)
Definition on_model (input : Input) : Prop :=
  match input with
  | KeyDown e | KeyUp e => code e ∉ Object_prototype
  | PointerDown i | PointerUp i | PointerLeave i =>
      (i < length Layout.generateKeys)%nat
  end.

End Keyboard.

(** ** The timing and the gains of a layer *)

Definition layer_gain (l : Layer) : Envelope :=
  match l with NoiseBody _ _ _ g _ _ | Tone _ _ g _ _ => g end.

Definition layer_start (l : Layer) : Q :=
  match l with NoiseBody _ _ _ _ s _ | Tone _ _ _ s _ => s end.

Definition layer_stop (l : Layer) : Q :=
  match l with NoiseBody _ _ _ _ _ t | Tone _ _ _ _ t => t end.

(** The requests to resume among the effects. *)
Fixpoint resumes (out : list Effect) : nat :=
  match out with
  | [] => 0
  | Resume _ :: rest => S (resumes rest)
  | Start _ :: rest => resumes rest
  end.

(** The switchId of a call. *)
Definition switch_of (c : Call) : string :=
  match c with Down switchId | Up switchId => switchId end.

(** The sum of the gains that the layers start with. *)
Definition sum_gains (ls : list Layer) : Q :=
  foldr (λ l acc, initial (layer_gain l) + acc) 0 ls.

(** The layer is timed from [now]: it starts then, its ramp ends later, and
    it stops after the ramp has ended. *)
Definition timed_from (now : Q) (l : Layer) : Prop :=
  layer_start l = now ∧ now < endTime (layer_gain l) ∧
  endTime (layer_gain l) < layer_stop l.

(** The gain of the layer decays: it ramps to 0.001 from above, and starts
    below 1. *)
Definition decays (l : Layer) : Prop :=
  target (layer_gain l) = 0.001 ∧ 0.001 < initial (layer_gain l) ∧
  initial (layer_gain l) < 1.

(** ** What the store and the handlers keep *)

(** Every category holds the id of one of its options, and the color of
    that option. *)
Definition consistent (state : Store.ConfiguratorState) : Prop :=
  ∀ category,
    ∃ o,
      Store.find_option category
        (Store.selected category (Store.selectedOptions state)) = Some o ∧
      Store.color_of category state = Store.color o.

(** An input that the listeners drop: a key that repeats while it is held,
    or a key code that the model has no key for. *)
Definition ignored (input : Keyboard.Input) : Prop :=
  match input with
  | Keyboard.KeyDown e =>
      Keyboard.repeat e = true ∨ Keyboard.KEY_MAP_get (Keyboard.code e) = None
  | Keyboard.KeyUp e => Keyboard.KEY_MAP_get (Keyboard.code e) = None
  | _ => False
  end.

(** Every pressed key is a key of the model. *)
Definition model_keys (pressed : gset Keyboard.Pressed) : Prop :=
  ∀ k, k ∈ pressed →
       ∃ i, k = inl i ∧ (i < length Layout.generateKeys)%nat.

(** * Properties *)

(** ** The profile table *)

Lemma PROFILES_lookup_Some (switchId : string) (p : SwitchProfile) :
  PROFILES !! switchId = Some p ↔
  (switchId = "red" ∧ p = red) ∨ (switchId = "blue" ∧ p = blue) ∨
  (switchId = "brown" ∧ p = brown) ∨ (switchId = "speed" ∧ p = speed) ∨
  (switchId = "black" ∧ p = black).
Proof.
  unfold PROFILES. rewrite !lookup_insert_Some, lookup_empty.
  split.
  - intuition (subst; auto 10; discriminate).
  - intros [[-> ->]|[[-> ->]|[[-> ->]|[[-> ->]|[-> ->]]]]];
      repeat first [left; split; reflexivity | right; split; [discriminate|]].
Qed.

Lemma PROFILES_red : PROFILES_get "red" = Some (Profile red).
Proof. reflexivity. Qed.

Lemma profiles_valid :
  valid_profile red ∧ valid_profile blue ∧ valid_profile brown ∧
  valid_profile speed ∧ valid_profile black.
Proof. unfold valid_profile. repeat split; reflexivity || discriminate. Qed.

Lemma PROFILES_valid (switchId : string) (p : SwitchProfile) :
  PROFILES !! switchId = Some p → valid_profile p.
Proof.
  destruct profiles_valid as (? & ? & ? & ? & ?).
  rewrite PROFILES_lookup_Some.
  intros [[_ ->]|[[_ ->]|[[_ ->]|[[_ ->]|[_ ->]]]]]; assumption.
Qed.

(** A name that [Object.prototype] does not define resolves to a profile of
    the table, and to [red] when it is not a key of the table. *)
Lemma lookupProfile_own_or_default (switchId : string) :
  switchId ∉ Object_prototype →
  ∃ p, lookupProfile switchId = Profile p ∧ valid_profile p ∧
       (¬ recognized switchId → p = red).
Proof.
  intros Hn. unfold lookupProfile, PROFILES_get.
  destruct (PROFILES !! switchId) as [p|] eqn:Hp; simpl.
  - exists p. split; [done|]. split; [by eapply PROFILES_valid|].
    intros Hr. exfalso. apply Hr. unfold recognized.
    apply PROFILES_lookup_Some in Hp. rewrite !elem_of_cons.
    destruct Hp as [[-> _]|[[-> _]|[[-> _]|[[-> _]|[-> _]]]]]; auto 10.
  - rewrite decide_False by done. simpl. exists red.
    split; [done|]. split; [apply profiles_valid | done].
Qed.

Lemma lookupProfile_inherited (switchId : string) :
  switchId ∈ Object_prototype →
  lookupProfile switchId = Inherited switchId.
Proof.
  intros Hin. unfold lookupProfile, PROFILES_get.
  destruct (PROFILES !! switchId) as [p|] eqn:Hp; simpl.
  - apply PROFILES_lookup_Some in Hp. exfalso.
    revert Hin. unfold Object_prototype.
    rewrite !elem_of_union, !elem_of_singleton.
    destruct Hp as [[-> _]|[[-> _]|[[-> _]|[[-> _]|[-> _]]]]];
      intuition discriminate.
  - by rewrite decide_True.
Qed.

(** ** Computations *)

Lemma bind_Returns {A B} (m : M A) (k : A → M B) w a w1 out1 :
  m w = Returns a w1 out1 →
  bind m k w =
    match k a w1 with
    | Returns b w2 out2 => Returns b w2 (out1 ++ out2)
    | Throws e w2 out2 => Throws e w2 (out1 ++ out2)
    end.
Proof. intros H. unfold bind. by rewrite H. Qed.

Lemma bind_Throws {A B} (m : M A) (k : A → M B) w e w1 out1 :
  m w = Throws e w1 out1 → bind m k w = Throws e w1 out1.
Proof. intros H. unfold bind. by rewrite H. Qed.

Lemma layers_app (out1 out2 : list Effect) :
  layers (out1 ++ out2) = layers out1 ++ layers out2.
Proof.
  induction out1 as [|[c|l] out1 IH]; simpl; [done| done |by rewrite IH].
Qed.

(** ** The noise buffer *)

Section Noise.

Variable host : Host.
Variable len : Q.

Let body := λ (i : nat) (data : list R),
  r <- Math_random host ;; ret (<[i := shaped_noise len i r]> data).

Lemma for_each_fill (indices : list nat) (data : list R) (w : World) :
  for_each body indices data w =
  Returns (fill host len indices (draws w) data)
    {| ctx := ctx w; noiseBuffer := noiseBuffer w; attempts := attempts w;
       contexts := contexts w; buffers := buffers w;
       draws := (length indices + draws w)%nat; reads := reads w |} [].
Proof.
  revert data w. induction indices as [|i rest IH]; intros data w.
  - by destruct w.
  - simpl. unfold bind at 1. simpl. rewrite IH. simpl.
    do 2 f_equal. lia.
Qed.

Lemma fill_length (indices : list nat) (d : nat) (data : list R) :
  length (fill host len indices d data) = length data.
Proof.
  revert d data. induction indices as [|i rest IH]; intros d data; simpl.
  - done.
  - by rewrite IH, length_insert.
Qed.

Lemma fill_lookup_before (a n d i : nat) (data : list R) :
  (i < a)%nat → fill host len (seq a n) d data !! i = data !! i.
Proof.
  revert a d data. induction n as [|n IH]; intros a d data Hi; simpl.
  - done.
  - rewrite IH by lia. apply list_lookup_insert_ne. lia.
Qed.

Lemma fill_lookup (a n d i : nat) (data : list R) :
  (a ≤ i < a + n)%nat → (i < length data)%nat →
  fill host len (seq a n) d data !! i =
  Some (shaped_noise len i (random host (d + (i - a)))).
Proof.
  revert a d data. induction n as [|n IH]; intros a d data Hi Hl; simpl.
  - lia.
  - destruct (decide (i = a)) as [->|Hne].
    + rewrite fill_lookup_before by lia.
      rewrite list_lookup_insert_eq by done.
      do 3 f_equal. lia.
    + rewrite IH; [|lia|by rewrite length_insert].
      do 3 f_equal. lia.
Qed.

End Noise.

Lemma frames_positive (rate : Q) :
  10 <= rate → (0 < Z.to_nat (Qfloor (rate * 0.1)))%nat.
Proof.
  intros Hr.
  assert (Qfloor 1 <= Qfloor (rate * 0.1))%Z as H
    by (apply Qfloor_resp_le; lra).
  change (Qfloor 1) with 1%Z in H. lia.
Qed.

Lemma frames_le_iterations (len : Q) :
  (Z.to_nat (Qfloor len) ≤ length (loop_indices len))%nat.
Proof.
  unfold loop_indices. rewrite length_seq.
  pose proof (Qfloor_le len). pose proof (Qle_ceiling len).
  assert (Qfloor len <= Qceiling len)%Z; [|lia].
  rewrite Zle_Qle. lra.
Qed.

(** The loop runs for the indices below [len]. *)
Lemma loop_indices_spec (len : Q) (i : nat) :
  i ∈ loop_indices len ↔ inject_Z (Z.of_nat i) < len.
Proof.
  unfold loop_indices. rewrite elem_of_seq.
  pose proof (Qle_ceiling len). pose proof (Qceiling_lt len).
  split.
  - intros [_ Hi].
    assert (Z.of_nat i <= Qceiling len - 1)%Z as Hz by lia.
    rewrite Zle_Qle in Hz. lra.
  - intros Hi. split; [lia|].
    assert (Z.of_nat i < Qceiling len)%Z; [|lia].
    rewrite Zlt_Qlt. lra.
Qed.

(** ** [ensureCtx] *)

Section Ensure.

Variable host : Host.

Lemma ensureCtx_existing (w : World) (c : AudioContext) :
  ctx w = Some c →
  ensureCtx host w = Returns c (tick w) (resumed host c w).
Proof.
  intros Hc. unfold ensureCtx, bind, get_ctx, resumed. rewrite Hc. simpl.
  rewrite Hc. simpl. by destruct (suspended host (reads w)).
Qed.

Lemma ensureCtx_refused (w : World) :
  ctx w = None → construct host (attempts w) = None →
  ensureCtx host w = Throws ConstructionError (refused w) [].
Proof.
  intros Hc Hn. unfold ensureCtx, bind, get_ctx, new_AudioContext.
  by rewrite Hc, Hn.
Qed.

Lemma buildNoiseBuffer_built (w : World) (c : AudioContext) :
  ctx w = Some c → (0 < Z.to_nat (Qfloor (sampleRate c * 0.1)))%nat →
  let len := sampleRate c * 0.1 in
  buildNoiseBuffer host w =
  Returns ()
    {| ctx := ctx w;
       noiseBuffer :=
         Some {| buf_sampleRate := sampleRate c;
                 channelData :=
                   fill host len (loop_indices len) (draws w)
                     (replicate (Z.to_nat (Qfloor len)) 0%R) |};
       attempts := attempts w; contexts := contexts w;
       buffers := S (buffers w);
       draws := (length (loop_indices len) + draws w)%nat;
       reads := reads w |} [].
Proof.
  intros Hc Hf len. fold len in Hf.
  unfold buildNoiseBuffer, bind at 1, get_ctx. rewrite Hc.
  fold len. unfold bind at 1, createBuffer.
  destruct (Z.to_nat (Qfloor len)) as [|n] eqn:Hn; [lia|].
  unfold bind at 1. rewrite for_each_fill. simpl. by rewrite Hc.
Qed.

Lemma ensureCtx_constructs (w : World) (rate : Q) :
  ctx w = None → construct host (attempts w) = Some rate →
  (0 < Z.to_nat (Qfloor (rate * 0.1)))%nat →
  let c := {| ctx_id := attempts w; sampleRate := rate |} in
  ensureCtx host w = Returns c (constructed host rate w) (resumed host c w).
Proof.
  intros Hc Hn Hr c. unfold ensureCtx, get_ctx.
  unfold bind at 1. unfold bind at 1. rewrite Hc.
  unfold bind at 1, new_AudioContext. rewrite Hn.
  unfold bind at 1, set_ctx. cbn [ctx noiseBuffer attempts contexts buffers draws reads].
  rewrite (buildNoiseBuffer_built _ c) by done.
  cbn. unfold resumed. by destruct (suspended host (reads w)).
Qed.

Lemma ensureCtx_no_frame (w : World) (rate : Q) :
  ctx w = None → construct host (attempts w) = Some rate →
  Z.to_nat (Qfloor (rate * 0.1)) = 0%nat →
  ensureCtx host w =
  Throws NotSupportedError
    {| ctx := Some {| ctx_id := attempts w; sampleRate := rate |};
       noiseBuffer := noiseBuffer w; attempts := S (attempts w);
       contexts := S (contexts w); buffers := buffers w; draws := draws w;
       reads := reads w |} [].
Proof.
  intros Hc Hn Hr. unfold ensureCtx, get_ctx.
  unfold bind at 1. unfold bind at 1. rewrite Hc.
  unfold bind at 1, new_AudioContext. rewrite Hn.
  unfold bind at 1, set_ctx.
  cbn [ctx noiseBuffer attempts contexts buffers draws reads].
  unfold buildNoiseBuffer, bind at 1, get_ctx.
  cbn [ctx noiseBuffer attempts contexts buffers draws reads sampleRate].
  unfold bind at 1, createBuffer. by rewrite Hr.
Qed.

Lemma ensureCtx_available (w : World) :
  device_available host w = true →
  ∃ c w1,
    ensureCtx host w = Returns c w1 (resumed host c w) ∧ ctx w1 = Some c ∧
    reads w1 = S (reads w) ∧
    (ctx w = None → is_Some (noiseBuffer w1)) ∧
    (is_Some (ctx w) → ctx w1 = ctx w ∧ noiseBuffer w1 = noiseBuffer w ∧ draws w1 = draws w).
Proof.
  unfold device_available. intros Ha.
  destruct (ctx w) as [c|] eqn:Hc.
  - exists c, (tick w). rewrite (ensureCtx_existing w c Hc).
    repeat split; simpl; done.
  - destruct (construct host (attempts w)) as [rate|] eqn:Hn; [|done].
    apply Qle_bool_iff in Ha. apply frames_positive in Ha.
    eexists _, _. rewrite (ensureCtx_constructs w rate Hc Hn Ha).
    do 3 (split; [done|]). split; [by eauto|by intros [? ?]].
Qed.

End Ensure.

Section Play.

Variable host : Host.

Lemma layers_Start (ls : list Layer) : layers (map Start ls) = ls.
Proof. induction ls as [|l ls IH]; simpl; [done|by rewrite IH]. Qed.

Lemma layers_resumed (c : AudioContext) (w : World) :
  layers (resumed host c w) = [].
Proof. unfold resumed. by destruct (suspended host (reads w)). Qed.

Lemma playDown_profile s w c w1 out1 p :
  ensureCtx host w = Returns c w1 out1 → lookupProfile s = Profile p →
  ∃ w2, playDown host s w =
        Returns () w2 (out1 ++ map Start (down_layers host p w1)).
Proof.
  intros He Hp. unfold playDown. rewrite (bind_Returns _ _ _ _ _ _ He), Hp.
  unfold down_layers, click_down, bind. simpl.
  destruct (noiseBuffer w1) as [b|]; simpl;
    destruct (Qlt_le_dec 0 (clickFreq p)); simpl; by eexists.
Qed.

Lemma playUp_profile s w c w1 out1 p :
  ensureCtx host w = Returns c w1 out1 → lookupProfile s = Profile p →
  ∃ w2, playUp host s w =
        Returns () w2 (out1 ++ map Start (up_layers host p w1)).
Proof.
  intros He Hp. unfold playUp. rewrite (bind_Returns _ _ _ _ _ _ He), Hp.
  unfold up_layers, click_up, bind. simpl.
  destruct (noiseBuffer w1) as [b|]; simpl;
    destruct (Qlt_le_dec 0 (clickFreq p)); simpl; by eexists.
Qed.

Lemma playDown_inherited s w c w1 out1 name :
  ensureCtx host w = Returns c w1 out1 → lookupProfile s = Inherited name →
  ∃ w2, playDown host s w = Throws TypeError w2 out1.
Proof.
  intros He Hp. unfold playDown. rewrite (bind_Returns _ _ _ _ _ _ He), Hp.
  unfold bind. simpl.
  destruct (noiseBuffer w1) as [b|]; simpl; rewrite app_nil_r; by eexists.
Qed.

Lemma playUp_inherited s w c w1 out1 name :
  ensureCtx host w = Returns c w1 out1 → lookupProfile s = Inherited name →
  ∃ w2, effects_of (playUp host s w) = out1 ∧
        playUp host s w =
        match noiseBuffer w1 with
        | Some _ => Throws TypeError w2 out1
        | None => Returns () w2 out1
        end.
Proof.
  intros He Hp. unfold playUp. rewrite (bind_Returns _ _ _ _ _ _ He), Hp.
  unfold bind. simpl.
  destruct (noiseBuffer w1) as [b|]; simpl; rewrite app_nil_r; by eexists.
Qed.

Lemma play_throws (s : string) (w : World) e w1 out1 :
  ensureCtx host w = Throws e w1 out1 →
  playDown host s w = Throws e w1 out1 ∧ playUp host s w = Throws e w1 out1.
Proof.
  intros He. unfold playDown, playUp.
  by rewrite !(bind_Throws _ _ _ _ _ _ He).
Qed.

End Play.


(** ** What the calls leave of the engine *)

Section Frame.

Variable host : Host.

Lemma bind_fields {A B} (m : M A) (k : A → M B) (w : World) :
  (∀ a, keeps (k a)) →
  engine_fields (world_of (bind m k w)) = engine_fields (world_of (m w)).
Proof.
  intros Hk. unfold bind. destruct (m w) as [a w1 out1|e w1 out1]; [|done].
  specialize (Hk a w1). by destruct (k a w1).
Qed.

Lemma keeps_bind {A B} (m : M A) (k : A → M B) :
  keeps m → (∀ a, keeps (k a)) → keeps (bind m k).
Proof. intros Hm Hk w. by rewrite bind_fields. Qed.

Lemma keeps_ret {A} (a : A) : keeps (ret a).
Proof. done. Qed.

Lemma keeps_throw {A} (e : Exn) : keeps (@throw A e).
Proof. done. Qed.

Lemma keeps_emit (e : Effect) : keeps (emit e).
Proof. done. Qed.

Lemma keeps_Math_random : keeps (Math_random host).
Proof. done. Qed.

Lemma keeps_currentTime (c : AudioContext) : keeps (currentTime host c).
Proof. done. Qed.

Lemma keeps_get_noiseBuffer : keeps get_noiseBuffer.
Proof. done. Qed.

Lemma keeps_finite (x : Num.t) : keeps (finite x).
Proof. by destruct x. Qed.

Lemma keeps_jitter (value : Num.t) (amount : Q) :
  keeps (jitter host value amount).
Proof. done. Qed.

Lemma keeps_start_layer (l : Layer) : keeps (start_layer l).
Proof. done. Qed.

End Frame.

Create HintDb keeps.
#[export] Hint Resolve keeps_ret keeps_throw keeps_emit keeps_Math_random
  keeps_currentTime keeps_get_noiseBuffer keeps_finite keeps_jitter
  keeps_start_layer : keeps.

Ltac keeps_step :=
  lazymatch goal with
  | |- keeps (bind _ _) => apply keeps_bind; [|intros]
  | |- keeps (match ?x with _ => _ end) => destruct x
  | |- keeps _ => solve [eauto with keeps]
  end.

Section Invariant.

Variable host : Host.

Lemma playDown_fields (s : string) (w : World) :
  engine_fields (world_of (playDown host s w)) =
  engine_fields (world_of (ensureCtx host w)).
Proof.
  unfold playDown. apply bind_fields. intros c. cbv zeta.
  repeat keeps_step.
Qed.

Lemma playUp_fields (s : string) (w : World) :
  engine_fields (world_of (playUp host s w)) =
  engine_fields (world_of (ensureCtx host w)).
Proof.
  unfold playUp. apply bind_fields. intros c. cbv zeta.
  repeat keeps_step.
Qed.

Lemma perform_fields (c : Call) (w : World) :
  engine_fields (world_of (perform host c w)) =
  engine_fields (world_of (ensureCtx host w)).
Proof. destruct c; [apply playDown_fields | apply playUp_fields]. Qed.

Lemma ensureCtx_cases (w : World) :
  (∃ c, ctx w = Some c ∧ world_of (ensureCtx host w) = tick w) ∨
  (ctx w = None ∧ construct host (attempts w) = None ∧
   world_of (ensureCtx host w) = refused w) ∨
  (∃ rate, ctx w = None ∧ construct host (attempts w) = Some rate ∧
     (0 < Z.to_nat (Qfloor (rate * 0.1)))%nat ∧
     world_of (ensureCtx host w) = constructed host rate w) ∨
  (∃ rate, ctx w = None ∧ construct host (attempts w) = Some rate ∧
     Z.to_nat (Qfloor (rate * 0.1)) = 0%nat ∧
     world_of (ensureCtx host w) =
     {| ctx := Some {| ctx_id := attempts w; sampleRate := rate |};
        noiseBuffer := noiseBuffer w; attempts := S (attempts w);
        contexts := S (contexts w); buffers := buffers w; draws := draws w;
        reads := reads w |}).
Proof.
  destruct (ctx w) as [c|] eqn:Hc.
  { left. exists c. by rewrite (ensureCtx_existing host w c Hc). }
  right. destruct (construct host (attempts w)) as [rate|] eqn:Hn.
  2:{ left. by rewrite (ensureCtx_refused host w Hc Hn). }
  right. destruct (Z.to_nat (Qfloor (rate * 0.1))) as [|n] eqn:Hf.
  - right. exists rate. by rewrite (ensureCtx_no_frame host w rate Hc Hn Hf).
  - left. exists rate.
    rewrite (ensureCtx_constructs host w rate Hc Hn) by lia.
    repeat split; done || lia.
Qed.

Lemma inv_ensureCtx (w : World) : inv w → inv (world_of (ensureCtx host w)).
Proof.
  unfold inv. intros Hi.
  destruct (ensureCtx_cases w)
    as [(c & Hc & ->)|[(Hc & _ & ->)|[(r & Hc & _ & _ & ->)|(r & Hc & _ & _ & ->)]]];
    simpl; rewrite Hc in Hi; try done.
  - by rewrite Hc.
  - by rewrite Hc.
  - destruct Hi as (_ & -> & ->). done.
  - destruct Hi as (-> & -> & ->). done.
Qed.

Lemma inv_fields (w w' : World) :
  engine_fields w = engine_fields w' → inv w → inv w'.
Proof. unfold engine_fields, inv. intros [= -> -> _ -> ->]. done. Qed.

Lemma inv_perform (c : Call) (w : World) :
  inv w → inv (world_of (perform host c w)).
Proof.
  intros Hi. eapply inv_fields; [symmetry; apply perform_fields|].
  by apply inv_ensureCtx.
Qed.

Lemma run_snoc (calls : list Call) (c : Call) (w : World) :
  run host (calls ++ [c]) w = world_of (perform host c (run host calls w)).
Proof. unfold run. by rewrite foldl_snoc. Qed.

Lemma run_nil (w : World) : run host [] w = w.
Proof. reflexivity. Qed.

Lemma run_cons (c : Call) (calls : list Call) (w : World) :
  run host (c :: calls) w = run host calls (world_of (perform host c w)).
Proof. reflexivity. Qed.

Lemma run_app (calls more : list Call) (w : World) :
  run host (calls ++ more) w = run host more (run host calls w).
Proof. unfold run. by rewrite foldl_app. Qed.

Lemma inv_run (calls : list Call) (w : World) :
  inv w → inv (run host calls w).
Proof.
  revert w. induction calls as [|c calls IH]; intros w Hi; [done|].
  simpl. apply IH. by apply inv_perform.
Qed.

Lemma inv_ensure_times (n : nat) (w : World) :
  inv w → inv (ensure_times host n w).
Proof.
  intros Hi. induction n as [|n IH]; [done|].
  simpl. by apply inv_ensureCtx.
Qed.

Lemma inv_once (w : World) : inv w → (contexts w ≤ 1 ∧ buffers w ≤ 1)%nat.
Proof.
  unfold inv. destruct (ctx w), (noiseBuffer w); intuition lia.
Qed.

(** Once the context exists a call leaves the engine as it is. *)
Lemma existing_perform (c : Call) (w : World) :
  is_Some (ctx w) → engine_fields (world_of (perform host c w)) = engine_fields w.
Proof.
  intros [c0 Hc]. rewrite perform_fields.
  by rewrite (ensureCtx_existing host w c0 Hc).
Qed.

Lemma existing_run (calls : list Call) (w : World) :
  is_Some (ctx w) → engine_fields (run host calls w) = engine_fields w.
Proof.
  revert w. induction calls as [|c calls IH]; intros w Hc; [done|].
  simpl. pose proof (existing_perform c w Hc) as Hp. rewrite IH.
  - done.
  - unfold engine_fields in Hp. injection Hp as -> _ _ _ _. done.
Qed.

End Invariant.

(** ** The buffer follows the context *)

Section Ready.

Variable host : Host.
Hypothesis Hrates : rates_ok host.

Lemma ready_ensureCtx (w : World) :
  ready w → ready (world_of (ensureCtx host w)).
Proof using Hrates.
  unfold ready. intros Hw.
  destruct (ensureCtx_cases host w)
    as [(c & Hc & ->)|[(Hc & _ & ->)|[(r & Hc & _ & _ & ->)|(r & Hc & Hn & Hf & ->)]]];
    simpl.
  - done.
  - done.
  - by eauto.
  - apply Hrates, frames_positive in Hn. lia.
Qed.

Lemma ready_fields (w w' : World) :
  engine_fields w = engine_fields w' → ready w → ready w'.
Proof. unfold engine_fields, ready. by intros [= -> -> _ _ _]. Qed.

Lemma ready_run (calls : list Call) (w : World) :
  ready w → ready (run host calls w).
Proof using Hrates.
  revert w. induction calls as [|c calls IH]; intros w Hw; [done|].
  simpl. apply IH.
  eapply ready_fields; [symmetry; apply perform_fields|].
  by apply ready_ensureCtx.
Qed.

End Ready.

Lemma ensureCtx_Returns (host : Host) (w : World) c w1 out :
  ensureCtx host w = Returns c w1 out → ctx w1 = Some c.
Proof.
  destruct (ctx w) as [c0|] eqn:Hc.
  { rewrite (ensureCtx_existing host w c0 Hc). by intros [= <- <- _]. }
  destruct (construct host (attempts w)) as [rate|] eqn:Hn.
  2:{ by rewrite (ensureCtx_refused host w Hc Hn). }
  destruct (Z.to_nat (Qfloor (rate * 0.1))) as [|n] eqn:Hf.
  - by rewrite (ensureCtx_no_frame host w rate Hc Hn Hf).
  - rewrite (ensureCtx_constructs host w rate Hc Hn) by lia.
    by intros [= <- <- _].
Qed.

Lemma ready_initial : ready initial_world.
Proof. by intros [? ?]. Qed.

(** ** The envelope *)

Lemma Q2R_quarter (len : Q) : Q2R (len * 0.25) = (Q2R len * 0.25)%R.
Proof. rewrite Q2R_mult. f_equal; unfold Q2R; simpl; lra. Qed.

Lemma envelope_0 (len : Q) : envelope len 0 = 1%R.
Proof.
  unfold envelope. simpl. replace (- 0 / Q2R (len * 0.25))%R with 0%R.
  - apply exp_0.
  - unfold Rdiv. lra.
Qed.

Lemma envelope_decreasing (len : Q) (i j : nat) :
  0 < len → (i < j)%nat → (envelope len j < envelope len i)%R.
Proof.
  intros Hl Hij. unfold envelope. apply exp_increasing.
  assert (0 < Q2R (len * 0.25))%R as Hd.
  { rewrite Q2R_quarter. apply Qlt_Rlt in Hl.
    rewrite RMicromega.Q2R_0 in Hl. lra. }
  apply lt_INR in Hij. unfold Rdiv.
  apply Rmult_lt_compat_r; [by apply Rinv_0_lt_compat | lra].
Qed.

Lemma envelope_range (len : Q) (i : nat) :
  0 < len → (0 < envelope len i ∧ envelope len i <= 1)%R.
Proof.
  intros Hl. split; [apply exp_pos|].
  destruct i as [|i]; [rewrite envelope_0; lra|].
  rewrite <- (envelope_0 len). left. apply envelope_decreasing; [done|lia].
Qed.

Lemma shaped_noise_bound (len : Q) (i : nat) (r : Q) :
  0 < len → 0 <= r → r < 1 → (Rabs (shaped_noise len i r) <= 1)%R.
Proof.
  intros Hl Hr0 Hr1. unfold shaped_noise.
  destruct (envelope_range len i Hl) as [He0 He1].
  assert (-1 <= Q2R (r * 2 - 1) ∧ Q2R (r * 2 - 1) <= 1)%R as [Hu0 Hu1].
  { split.
    - replace (-1)%R with (Q2R (-1)) by (unfold Q2R; simpl; lra).
      apply Qle_Rle. lra.
    - rewrite <- RMicromega.Q2R_1. apply Qle_Rle. lra. }
  rewrite Rabs_mult, (Rabs_pos_eq (envelope len i)) by lra.
  assert (Rabs (Q2R (r * 2 - 1)) <= 1)%R as Ha by (apply Rabs_le; lra).
  pose proof (Rabs_pos (Q2R (r * 2 - 1))).
  nra.
Qed.

Lemma envelope_integer (len : Q) (n i : nat) :
  inject_Z (Z.of_nat n) == len → envelope len i = envelope_of_length n i.
Proof.
  intros Hn. unfold envelope, envelope_of_length.
  rewrite Q2R_quarter, <- (Qeq_eqR _ _ Hn). unfold Q2R. simpl.
  rewrite <- INR_IZR_INZ. do 2 f_equal. lra.
Qed.

Lemma envelope_differs (len : Q) (N : nat) :
  0 < len → ¬ inject_Z (Z.of_nat N) == len → (0 < N)%nat →
  envelope len 1 ≠ envelope_of_length N 1.
Proof.
  intros Hl Hne HN Heq. apply Hne. unfold envelope, envelope_of_length in Heq.
  apply exp_inv in Heq.
  assert (0 < Q2R len)%R as Hl'
    by (rewrite <- RMicromega.Q2R_0; by apply Qlt_Rlt).
  assert (0 < INR N)%R as HN' by (by apply lt_0_INR).
  assert (Q2R len = INR N) as Hq.
  { assert (Q2R (len * 0.25) = (Q2R len * 0.25)%R) as Hquarter
      by (rewrite Q2R_mult; f_equal; unfold Q2R; simpl; lra).
    rewrite Hquarter in Heq. simpl in Heq.
    assert (/ (Q2R len * 0.25) = / (INR N * 0.25))%R as Hinv
      by (unfold Rdiv in Heq; lra).
    apply Rinv_eq_reg in Hinv. lra. }
  apply eqR_Qeq. rewrite Hq, INR_IZR_INZ. unfold Q2R. simpl. lra.
Qed.

(** ** The layers of a call *)

Lemma existsb_filter {A} (f : A → bool) (l : list A) :
  existsb f l = existsb f (List.filter f l).
Proof.
  induction l as [|x l IH]; [done|]. simpl.
  destruct (f x) eqn:Hx; simpl; [by rewrite Hx|done].
Qed.

Lemma filter_click_down (host : Host) (p : SwitchProfile) (w1 : World) :
  List.filter is_click (down_layers host p w1) =
  click_down host p (clock host (reads w1))
    (match noiseBuffer w1 with Some _ => 3 | None => 1 end + draws w1).
Proof.
  unfold down_layers, click_down.
  destruct (noiseBuffer w1); simpl; by destruct (Qlt_le_dec 0 (clickFreq p)).
Qed.

(** ** What the calls start *)

Section Emits.

Variable host : Host.
Variable P : Layer → Prop.

Lemma emits_bind {A B} (m : M A) (k : A → M B) :
  emits P m → (∀ a, emits P (k a)) → emits P (bind m k).
Proof.
  intros Hm Hk w. specialize (Hm w). unfold bind.
  destruct (m w) as [a w1 out1|e w1 out1]; [|done].
  specialize (Hk a w1). simpl in Hm.
  destruct (k a w1); simpl in *; rewrite layers_app; by apply Forall_app.
Qed.

(** A computation without effect on the graph. *)
Lemma emits_silent {A} (m : M A) :
  (∀ w, effects_of (m w) = []) → emits P m.
Proof. intros Hm w. rewrite Hm. constructor. Qed.

Lemma emits_ret {A} (a : A) : emits P (ret a).
Proof. by apply emits_silent. Qed.

Lemma emits_throw {A} (e : Exn) : emits P (@throw A e).
Proof. by apply emits_silent. Qed.

Lemma emits_finite (x : Num.t) : emits P (finite x).
Proof. apply emits_silent. by destruct x. Qed.

Lemma emits_jitter (value : Num.t) (amount : Q) :
  emits P (jitter host value amount).
Proof. by apply emits_silent. Qed.

Lemma emits_currentTime (c : AudioContext) : emits P (currentTime host c).
Proof. by apply emits_silent. Qed.

Lemma emits_get_noiseBuffer : emits P get_noiseBuffer.
Proof. by apply emits_silent. Qed.

Lemma emits_start_layer (l : Layer) : P l → emits P (start_layer l).
Proof. intros Hl w. simpl. by repeat constructor. Qed.

Lemma emits_ensureCtx : emits P (ensureCtx host).
Proof.
  assert (∀ w, layers (effects_of (ensureCtx host w)) = []) as He.
  { intros w. destruct (ctx w) as [c|] eqn:Hc.
    { rewrite (ensureCtx_existing host w c Hc). apply layers_resumed. }
    destruct (construct host (attempts w)) as [rate|] eqn:Hn.
    2:{ by rewrite (ensureCtx_refused host w Hc Hn). }
    destruct (Z.to_nat (Qfloor (rate * 0.1))) as [|n] eqn:Hf.
    - by rewrite (ensureCtx_no_frame host w rate Hc Hn Hf).
    - rewrite (ensureCtx_constructs host w rate Hc Hn) by lia.
      apply layers_resumed. }
  intros w. rewrite He. constructor.
Qed.

End Emits.

Create HintDb emits.
#[export] Hint Resolve emits_ret emits_throw emits_finite emits_jitter
  emits_currentTime emits_get_noiseBuffer emits_ensureCtx : emits.

Ltac emits_step :=
  lazymatch goal with
  | |- emits _ (bind _ _) => apply emits_bind; [|intros]
  | |- emits _ (match ?x with _ => _ end) => destruct x
  | |- emits _ (start_layer _) => apply emits_start_layer; reflexivity
  | |- emits _ _ => solve [eauto with emits]
  end.

(** ** The hosts of the examples *)

Lemma random_ok_granting (rate r : Q) :
  0 <= r → r < 1 → random_ok (granting rate r).
Proof. intros H0 H1 n. by split. Qed.

Lemma rates_ok_granting (rate r : Q) : 10 <= rate → rates_ok (granting rate r).
Proof. intros Hr n rate' [= <-]. exact Hr. Qed.

(** * The properties of the specification *)

(** C1, as amended.  For every switchId that is not a property name of
    [Object.prototype], and every world in which the context exists or the
    host grants one, [playDown] and [playUp] return.  When the context does
    not exist and the host refuses to construct it, nothing absorbs the
    exception of the constructor: both operations throw it to their caller,
    start nothing, and leave the fields of the engine as they were. *)
Theorem C1_returns_or_propagates (host : Host) (switchId : string) (w : World) :
  (device_available host w = true → switchId ∉ Object_prototype →
   returns (playDown host switchId w) = true ∧
   returns (playUp host switchId w) = true) ∧
  (ctx w = None → construct host (attempts w) = None →
   playDown host switchId w = Throws ConstructionError (refused w) [] ∧
   playUp host switchId w = Throws ConstructionError (refused w) []).
Proof.
  split.
  - intros Ha Hs.
    destruct (ensureCtx_available host w Ha) as (c & w1 & He & _).
    destruct (lookupProfile_own_or_default switchId Hs) as (p & Hp & _).
    destruct (playDown_profile host _ _ _ _ _ _ He Hp) as [w2 ->].
    by destruct (playUp_profile host _ _ _ _ _ _ He Hp) as [w3 ->].
  - intros Hc Hn. apply play_throws. by apply ensureCtx_refused.
Qed.

(** C1 on a host that grants a context of 48 kHz, and on one that refuses. *)
Lemma C1_returns_or_propagates_witness :
  (returns (playDown (granting 48000 0.5) "blue" initial_world) = true ∧
   returns (playUp (granting 48000 0.5) "blue" initial_world) = true) ∧
  (playDown refusing "blue" initial_world =
     Throws ConstructionError (refused initial_world) [] ∧
   playUp refusing "blue" initial_world =
     Throws ConstructionError (refused initial_world) []).
Proof.
  split.
  - apply (C1_returns_or_propagates (granting 48000 0.5) "blue" initial_world).
    + reflexivity.
    + apply (bool_decide_eq_false_1 ("blue" ∈ Object_prototype)).
      vm_compute. reflexivity.
  - apply (C1_returns_or_propagates refusing "blue" initial_world);
      reflexivity.
Defined.

(** C1 as stated fails: on a host that refuses the context, [playDown] and
    [playUp] throw to their caller. *)
Lemma C1_refusal_reaches_caller :
  playDown refusing "red" initial_world =
    Throws ConstructionError (refused initial_world) [] ∧
  playUp refusing "red" initial_world =
    Throws ConstructionError (refused initial_world) [].
Proof. split; reflexivity. Qed.

(** C2, at the input where the code misses it.  ["constructor"] is not a key
    of the table, yet the lookup does not fall back to [red]: it returns the
    function that [PROFILES] inherits under that name, and every field read
    on it is [NaN]. *)
Theorem C2_inherited_name_is_no_profile :
  ¬ recognized "constructor" ∧
  PROFILES !! "constructor" = None ∧
  lookupProfile "constructor" = Inherited "constructor" ∧
  lookupProfile "constructor" ≠ Profile red ∧
  prop (lookupProfile "constructor") baseFreq = Num.NaN ∧
  prop (lookupProfile "constructor") volume = Num.NaN.
Proof.
  split.
  { unfold recognized. rewrite !elem_of_cons, elem_of_nil.
    intros [?|[?|[?|[?|[?|[]]]]]]; discriminate. }
  repeat split; try reflexivity. discriminate.
Qed.

(** C3.  With [r] the result of [Math.random()], so that [u = r - 0.5] is in
    [-0.5, 0.5): [jitter(v, a)] returns [v * (1 + u * 2 * a)]; this is [v]
    when [a] is 0, and within [v * (1 - a)] and [v * (1 + a)] when [a] is
    positive and [v] is not negative. *)
Theorem C3_jitter (host : Host) (w : World) (v a : Q) :
  let r := random host (draws w) in
  let u := r - 0.5 in
  0 <= r → r < 1 →
  (-0.5 <= u ∧ u < 0.5) ∧
  (∃ w', jitter host v a w = Returns (Num.Fin (jitter_value v a r)) w' [] ∧
         draws w' = S (draws w)) ∧
  jitter_value v 0 r == v ∧
  (0 < a →
   jitter_value v a r == v * (1 + u * 2 * a) ∧
   (0 <= v →
    v * (1 - a) <= jitter_value v a r ∧ jitter_value v a r <= v * (1 + a))).
Proof.
  intros r u Hr0 Hr1. subst u. split; [split; lra|].
  split; [by eexists|]. unfold jitter_value.
  split; [ring|]. intros Ha. split; [reflexivity|]. intros Hv.
  assert (0 <= v * (a * r))
    by (apply Qmult_le_0_compat; [|apply Qmult_le_0_compat]; lra).
  assert (0 <= v * (a * (1 - r)))
    by (apply Qmult_le_0_compat; [|apply Qmult_le_0_compat]; lra).
  split; lra.
Qed.

(** C3 at [v = 600], [a = 0.04] and [Math.random() = 0.25]. *)
Lemma C3_jitter_witness :
  let host := granting 48000 0.25 in
  (-0.5 <= 0.25 - 0.5 ∧ 0.25 - 0.5 < 0.5) ∧
  (∃ w', jitter host 600 0.04 initial_world =
           Returns (Num.Fin (jitter_value 600 0.04 0.25)) w' [] ∧
         draws w' = 1%nat) ∧
  jitter_value 600 0 0.25 == 600 ∧
  jitter_value 600 0.04 0.25 == 600 * (1 + (0.25 - 0.5) * 2 * 0.04) ∧
  600 * (1 - 0.04) <= jitter_value 600 0.04 0.25 ∧
  jitter_value 600 0.04 0.25 <= 600 * (1 + 0.04).
Proof.
  intros host.
  destruct (C3_jitter host initial_world 600 0.04) as (Hu & Hj & Hz & Ha).
  - discriminate.
  - reflexivity.
  - destruct (Ha eq_refl) as (He & Hb).
    destruct Hb as (Hlo & Hhi); [discriminate|].
    split; [exact Hu|]. split; [exact Hj|]. split; [exact Hz|].
    split; [exact He|]. split; [exact Hlo|exact Hhi].
Defined.

(** C4.  In the world [w] that any sequence of [playDown] and [playUp] calls
    leaves of a new engine: the host has constructed at most one context and
    at most one noise buffer, and further calls of [ensureCtx] do not change
    that; when the context does not exist yet and the host grants one, the
    next call constructs the context and the buffer; once the context
    exists, every later sequence of calls leaves the same context and the
    same buffer, sample for sample, and constructs nothing. *)
Theorem C4_single_construction (host : Host) (calls : list Call) :
  let w := run host calls initial_world in
  ((contexts w ≤ 1)%nat ∧ (buffers w ≤ 1)%nat) ∧
  (∀ n, (contexts (ensure_times host n w) ≤ 1)%nat ∧
        (buffers (ensure_times host n w) ≤ 1)%nat) ∧
  (∀ call rate,
     ctx w = None → construct host (attempts w) = Some rate → 10 <= rate →
     let w1 := world_of (perform host call w) in
     ctx w1 = Some {| ctx_id := attempts w; sampleRate := rate |} ∧
     is_Some (noiseBuffer w1) ∧ contexts w1 = 1%nat ∧ buffers w1 = 1%nat) ∧
  (∀ more,
     is_Some (ctx w) →
     let w2 := run host more w in
     ctx w2 = ctx w ∧ noiseBuffer w2 = noiseBuffer w ∧
     contexts w2 = contexts w ∧ buffers w2 = buffers w).
Proof.
  intros w.
  assert (inv w) as Hi by (by apply inv_run).
  split; [by apply inv_once|].
  split; [intros n; by apply inv_once, inv_ensure_times|].
  split.
  - intros call rate Hc Hn Hr w1.
    pose proof (perform_fields host call w) as Hf. fold w1 in Hf.
    rewrite (ensureCtx_constructs host w rate Hc Hn (frames_positive _ Hr))
      in Hf.
    unfold engine_fields in Hf. simpl in Hf.
    injection Hf as -> -> _ -> ->.
    unfold inv in Hi. rewrite Hc in Hi. destruct Hi as (_ & -> & ->).
    by eauto.
  - intros more Hc w2.
    pose proof (existing_run host more w Hc) as Hf. fold w2 in Hf.
    unfold engine_fields in Hf. by injection Hf as -> -> _ -> ->.
Qed.

(** C4 for a first [playDown("blue")] followed by [playUp("red")]. *)
Lemma C4_single_construction_witness :
  let host := granting 48000 0.5 in
  let w := run host [] initial_world in
  let w1 := world_of (perform host (Down "blue") w) in
  (ctx w1 = Some {| ctx_id := attempts w; sampleRate := 48000 |} ∧
   is_Some (noiseBuffer w1) ∧ contexts w1 = 1%nat ∧ buffers w1 = 1%nat) ∧
  (let w2 := run host [Up "red"] w1 in
   ctx w2 = ctx w1 ∧ noiseBuffer w2 = noiseBuffer w1 ∧
   contexts w2 = contexts w1 ∧ buffers w2 = buffers w1).
Proof.
  intros host w w1.
  destruct (C4_single_construction host []) as (_ & _ & H3 & _).
  pose proof (H3 (Down "blue") 48000 eq_refl eq_refl ltac:(discriminate))
    as Hw1.
  split; [exact Hw1|].
  destruct (C4_single_construction host [Down "blue"]) as (_ & _ & _ & H4).
  specialize (H4 [Up "red"]).
  rewrite (run_cons host (Down "blue") [] initial_world), run_nil in H4.
  apply H4. destruct Hw1 as [Hc _].
  exists {| ctx_id := attempts w; sampleRate := 48000 |}. exact Hc.
Defined.

(** C5, as amended.  For a context of 10 Hz at least, with
    [len = sampleRate * 0.1]: [buildNoiseBuffer] returns and sets a buffer
    of [floor(len)] samples, which is [len] when [len] is an integer; the
    sample at [i] is [u * exp(-i / (len * 0.25))], where [u = 2 * r - 1] is
    in [-1, 1) for [r] the [i]-th [Math.random()] of the call, and its
    magnitude is at most 1; the envelope is 1 at index 0 and strictly
    decreasing; and it is the envelope of the buffer length when [len] is an
    integer. *)
Theorem C5_noise_buffer (host : Host) (w : World) (c : AudioContext) :
  ctx w = Some c → 10 <= sampleRate c → random_ok host →
  let len := sampleRate c * 0.1 in
  ∃ w' b,
    buildNoiseBuffer host w = Returns () w' [] ∧
    noiseBuffer w' = Some b ∧
    length (channelData b) = Z.to_nat (Qfloor len) ∧
    (∀ i, (i < length (channelData b))%nat →
       let u := random host (draws w + i) * 2 - 1 in
       (-1 <= u ∧ u < 1) ∧
       channelData b !! i = Some (Q2R u * envelope len i)%R ∧
       (Rabs (Q2R u * envelope len i) <= 1)%R) ∧
    envelope len 0 = 1%R ∧
    (∀ i j, (i < j)%nat → (envelope len j < envelope len i)%R) ∧
    (∀ n : nat, inject_Z (Z.of_nat n) == len →
       length (channelData b) = n ∧
       ∀ i, envelope len i = envelope_of_length n i).
Proof.
  intros Hc Hr Hrand len.
  assert (0 < len) as Hl by (unfold len; lra).
  pose proof (frames_positive _ Hr) as Hf.
  rewrite (buildNoiseBuffer_built host w c Hc Hf). fold len.
  eexists _, _. split; [reflexivity|]. split; [reflexivity|].
  cbn [channelData].
  assert (length (fill host len (loop_indices len) (draws w)
            (replicate (Z.to_nat (Qfloor len)) 0%R)) = Z.to_nat (Qfloor len))
    as Hlen by (by rewrite fill_length, length_replicate).
  split; [done|]. split; [|split; [apply envelope_0|split]].
  - rewrite Hlen. intros i Hi. destruct (Hrand (draws w + i)%nat) as [H0 H1].
    split; [split; lra|]. split.
    + unfold loop_indices. rewrite fill_lookup.
      * by rewrite Nat.sub_0_r.
      * pose proof (frames_le_iterations len) as Hle.
        unfold loop_indices in Hle. rewrite length_seq in Hle. lia.
      * by rewrite length_replicate.
    + by apply shaped_noise_bound.
  - intros i j. by apply envelope_decreasing.
  - intros n Hn. split; [|intros i; by apply envelope_integer].
    rewrite Hlen, <- (Qfloor_comp _ _ Hn), Qfloor_Z. lia.
Qed.

(** C5 at 48 kHz: 4800 samples. *)
Lemma C5_noise_buffer_witness :
  let host := granting 48000 0.5 in
  let w := {| ctx := Some {| ctx_id := 0; sampleRate := 48000 |};
              noiseBuffer := None; attempts := 1; contexts := 1;
              buffers := 0; draws := 0; reads := 0 |} in
  ∃ w' b,
    buildNoiseBuffer host w = Returns () w' [] ∧
    noiseBuffer w' = Some b ∧
    length (channelData b) = 4800%nat ∧
    envelope (48000 * 0.1) 0 = 1%R.
Proof.
  intros host w.
  destruct (C5_noise_buffer host w {| ctx_id := 0; sampleRate := 48000 |})
    as (w' & b & Hb & Hn & Hlen & _ & He & _).
  - reflexivity.
  - discriminate.
  - apply random_ok_granting; [discriminate|reflexivity].
  - exists w', b. split; [exact Hb|]. split; [exact Hn|].
    split; [exact Hlen|exact He].
Defined.

(** C5 as stated fails at 11025 Hz: a tenth of a second is 1102.5 samples,
    the buffer has 1102 of them where rounding gives 1103, and the envelope
    decays with 1102.5, which is the envelope of neither length. *)
Lemma C5_truncated_not_rounded :
  let w := world_of (ensureCtx (granting 11025 0) initial_world) in
  (∃ b, noiseBuffer w = Some b ∧ length (channelData b) = 1102%nat) ∧
  Math_round (11025 * 0.1) = 1103%Z ∧
  envelope (11025 * 0.1) 1 ≠ envelope_of_length 1102 1 ∧
  envelope (11025 * 0.1) 1 ≠ envelope_of_length 1103 1.
Proof.
  intros w. split.
  - unfold w.
    rewrite (ensureCtx_constructs (granting 11025 0) initial_world 11025)
      by (reflexivity || (vm_compute; lia)).
    eexists. split; [reflexivity|]. cbn [channelData].
    rewrite fill_length, length_replicate. reflexivity.
  - split; [reflexivity|].
    split; apply envelope_differs; (reflexivity || discriminate || lia).
Qed.

(** C6.  Where the context exists or the host grants one, [ensureCtx]
    returns, and the click layers [playDown] starts are: one, when the
    [clickFreq] of the resolved profile is greater than 0, and none
    otherwise.  That one is a square oscillator at
    [jitter(clickFreq, 0.06)], its gain starts at [volume * 0.25] and ramps
    exponentially until [now + clickDecay], and it stops 5 ms later.
    ["blue"] has the layer and ["red"] has not. *)
Theorem C6_click_layer (host : Host) (switchId : string) (w : World) :
  device_available host w = true →
  (∃ c w1,
     ensureCtx host w = Returns c w1 (resumed host c w) ∧
     let now := clock host (reads w1) in
     let r := random host
                (match noiseBuffer w1 with Some _ => 3 | None => 1 end
                 + draws w1) in
     List.filter is_click (layers (effects_of (playDown host switchId w))) =
     match lookupProfile switchId with
     | Profile p =>
         if Qlt_le_dec 0 (clickFreq p) then
           [Tone square (jitter_value (clickFreq p) 0.06 r)
              {| initial := volume p * 0.25; target := 0.001;
                 endTime := now + clickDecay p |}
              now (now + clickDecay p + 0.005)]
         else []
     | Inherited _ => []
     end) ∧
  existsb is_click (layers (effects_of (playDown host switchId w))) =
    (prop (lookupProfile switchId) clickFreq >? 0)%num ∧
  existsb is_click (layers (effects_of (playDown host "blue" w))) = true ∧
  existsb is_click (layers (effects_of (playDown host "red" w))) = false.
Proof.
  intros Ha.
  destruct (ensureCtx_available host w Ha) as (c & w1 & He & _).
  assert (∀ s,
    List.filter is_click (layers (effects_of (playDown host s w))) =
    match lookupProfile s with
    | Profile p =>
        click_down host p (clock host (reads w1))
          (match noiseBuffer w1 with Some _ => 3 | None => 1 end + draws w1)
    | Inherited _ => []
    end) as Hclick.
  { intros s. destruct (lookupProfile s) as [p|name] eqn:Hp.
    - destruct (playDown_profile host _ _ _ _ _ _ He Hp) as [w2 ->].
      simpl. rewrite layers_app, layers_Start, layers_resumed. simpl.
      apply filter_click_down.
    - destruct (playDown_inherited host _ _ _ _ _ _ He Hp) as [w2 ->].
      simpl. by rewrite layers_resumed. }
  assert (∀ s,
    existsb is_click (layers (effects_of (playDown host s w))) =
    (prop (lookupProfile s) clickFreq >? 0)%num) as Hex.
  { intros s. rewrite existsb_filter, (Hclick s).
    destruct (lookupProfile s) as [p|name]; [|done].
    unfold click_down. simpl. by destruct (Qlt_le_dec 0 (clickFreq p)). }
  split; [|split; [apply Hex|split; by rewrite Hex]].
  exists c, w1. split; [done|]. cbv zeta. rewrite Hclick.
  by destruct (lookupProfile switchId).
Qed.

(** C6 for the first call of a new engine. *)
Lemma C6_click_layer_witness :
  existsb is_click
    (layers (effects_of (playDown (granting 48000 0.5) "blue" initial_world)))
  = true ∧
  existsb is_click
    (layers (effects_of (playDown (granting 48000 0.5) "red" initial_world)))
  = false.
Proof.
  destruct (C6_click_layer (granting 48000 0.5) "blue" initial_world eq_refl)
    as (_ & _ & Hblue & Hred).
  split; [exact Hblue|exact Hred].
Defined.

(** C7, as amended.  Where the context exists or the host grants one, the
    layers [playUp] starts for a switchId that resolves to profile [p] are:
    the noise body (when the buffer is set), its filter at
    [jitter(filterFreq * 1.4)], resonance [filterQ * 0.8], gain starting at
    [volume * 0.35] without jitter, ramp until [now + thockDecay * 0.6];
    then, only when [clickFreq > 0], a square oscillator at
    [jitter(clickFreq * 0.8)], the jitter of the default amount 0.04, gain
    starting at [volume * 0.15], ramp until [now + clickDecay * 0.7].  For
    ["speed"]: no click, 1680 Hz before jitter, 0.021 s. *)
Theorem C7_release_layers (host : Host) (switchId : string) (w : World)
    (p : SwitchProfile) :
  device_available host w = true → lookupProfile switchId = Profile p →
  (∃ c w1,
     ensureCtx host w = Returns c w1 (resumed host c w) ∧
     let now := clock host (reads w1) in
     let d := draws w1 in
     layers (effects_of (playUp host switchId w)) =
     match noiseBuffer w1 with
     | Some buffer =>
         [NoiseBody buffer
            (jitter_value (filterFreq p * 1.4) default_amount (random host d))
            (filterQ p * 0.8)
            {| initial := volume p * 0.35; target := 0.001;
               endTime := now + thockDecay p * 0.6 |}
            now (now + 0.1)]
     | None => []
     end ++
     if Qlt_le_dec 0 (clickFreq p) then
       [Tone square
          (jitter_value (clickFreq p * 0.8) default_amount
             (random host
                (match noiseBuffer w1 with Some _ => 1 | None => 0 end + d)))
          {| initial := volume p * 0.15; target := 0.001;
             endTime := now + clickDecay p * 0.7 |}
          now (now + clickDecay p * 0.7 + 0.005)]
     else []) ∧
  default_amount == 0.04 ∧
  lookupProfile "speed" = Profile speed ∧
  clickFreq speed == 0 ∧
  filterFreq speed * 1.4 == 1680 ∧
  thockDecay speed * 0.6 == 0.021.
Proof.
  intros Ha Hp. split; [|by repeat split].
  destruct (ensureCtx_available host w Ha) as (c & w1 & He & _).
  exists c, w1. split; [done|]. cbv zeta.
  destruct (playUp_profile host _ _ _ _ _ _ He Hp) as [w2 ->].
  simpl. rewrite layers_app, layers_Start, layers_resumed. simpl.
  unfold up_layers, click_up. by destruct (noiseBuffer w1).
Qed.

(** C7 for [playUp("speed")] as the first call: the noise body alone. *)
Lemma C7_release_layers_witness :
  let host := granting 48000 0.5 in
  ∃ c w1,
    ensureCtx host initial_world =
      Returns c w1 (resumed host c initial_world) ∧
    layers (effects_of (playUp host "speed" initial_world)) =
    match noiseBuffer w1 with
    | Some buffer =>
        [NoiseBody buffer
           (jitter_value (filterFreq speed * 1.4) default_amount
              (random host (draws w1)))
           (filterQ speed * 0.8)
           {| initial := volume speed * 0.35; target := 0.001;
              endTime := clock host (reads w1) + thockDecay speed * 0.6 |}
           (clock host (reads w1)) (clock host (reads w1) + 0.1)]
    | None => []
    end.
Proof.
  intros host.
  destruct (C7_release_layers host "speed" initial_world speed eq_refl eq_refl)
    as [(c & w1 & He & Hl) _].
  exists c, w1. split; [exact He|].
  cbv zeta in Hl. rewrite Hl.
  destruct (Qlt_le_dec 0 (clickFreq speed)) as [Hlt|_].
  - discriminate Hlt.
  - apply app_nil_r.
Defined.

(** C7 as stated fails: the click of [playUp("blue")] is not at
    [clickFreq * 0.8 = 3360] Hz when [Math.random()] gives 0, but 4 % below,
    at 3225.6 Hz. *)
Lemma C7_release_click_is_jittered :
  ∃ f g now stop,
    List.filter is_click
      (layers (effects_of (playUp (granting 48000 0) "blue" initial_world))) =
    [Tone square f g now stop] ∧
    f == 3225.6 ∧ ¬ f == clickFreq blue * 0.8.
Proof.
  assert (0 < Z.to_nat (Qfloor (48000 * 0.1)))%nat as Hf
    by (apply frames_positive; discriminate).
  pose proof (ensureCtx_constructs (granting 48000 0) initial_world 48000
                eq_refl eq_refl Hf) as He.
  cbv zeta in He.
  destruct (playUp_profile (granting 48000 0) "blue" _ _ _ _ blue He eq_refl)
    as [w2 ->].
  cbn [effects_of]. rewrite layers_app, layers_Start, layers_resumed.
  unfold up_layers, click_up. cbn [noiseBuffer constructed app].
  destruct (Qlt_le_dec 0 (clickFreq blue)) as [_|Hle];
    [|exfalso; apply Hle; reflexivity].
  cbn [List.filter is_click app].
  eexists _, _, _, _. split; [reflexivity|]. split; [reflexivity|discriminate].
Qed.

(** C8.  No layer that [playUp] starts is a sine oscillator, for any
    switchId, in any world, whether the call returns or throws; [playDown]
    starts one whenever the switchId resolves to a profile and the context
    exists or the host grants one. *)
Theorem C8_no_thud_on_release (host : Host) (x : string) (w : World) :
  Forall (λ l, is_thud l = false) (layers (effects_of (playUp host x w))) ∧
  (device_available host w = true → x ∉ Object_prototype →
   existsb is_thud (layers (effects_of (playDown host x w))) = true).
Proof.
  split.
  - revert w. change (emits (λ l, is_thud l = false) (playUp host x)).
    unfold playUp. cbv zeta. repeat emits_step.
  - intros Ha Hx.
    destruct (ensureCtx_available host w Ha) as (c & w1 & He & _).
    destruct (lookupProfile_own_or_default x Hx) as (p & Hp & _).
    destruct (playDown_profile host _ _ _ _ _ _ He Hp) as [w2 ->].
    simpl. rewrite layers_app, layers_Start, layers_resumed.
    unfold down_layers. by destruct (noiseBuffer w1).
Qed.

(** C8: [playDown("red")] in a new engine starts a thud. *)
Lemma C8_no_thud_on_release_witness :
  existsb is_thud
    (layers (effects_of (playDown (granting 48000 0.5) "red" initial_world)))
  = true.
Proof.
  apply (C8_no_thud_on_release (granting 48000 0.5) "red" initial_world).
  - reflexivity.
  - apply (bool_decide_eq_false_1 ("red" ∈ Object_prototype)).
    vm_compute. reflexivity.
Defined.

(** C9, as amended.  When [playDown] is called with the context set and the
    buffer not set, for a switchId that resolves to profile [p]: it returns,
    the buffer stays unset, and the layers it starts are the thud and, when
    [clickFreq > 0], the click, and no noise body.  When neither is set and
    the host grants a context, the call builds the buffer before the test,
    and the layers start with the noise body. *)
Theorem C9_buffer_missing (host : Host) (switchId : string) (w : World)
    (p : SwitchProfile) :
  lookupProfile switchId = Profile p → noiseBuffer w = None →
  (∀ c, ctx w = Some c →
     let now := clock host (S (reads w)) in
     returns (playDown host switchId w) = true ∧
     noiseBuffer (world_of (playDown host switchId w)) = None ∧
     layers (effects_of (playDown host switchId w)) =
       Tone sine (jitter_value (baseFreq p) default_amount
                    (random host (draws w)))
         {| initial := volume p * 0.45; target := 0.001;
            endTime := now + 0.04 |} now (now + 0.05)
       :: (if Qlt_le_dec 0 (clickFreq p) then
             [Tone square (jitter_value (clickFreq p) 0.06
                             (random host (1 + draws w)))
                {| initial := volume p * 0.25; target := 0.001;
                   endTime := now + clickDecay p |}
                now (now + clickDecay p + 0.005)]
           else [])) ∧
  (∀ rate, ctx w = None → construct host (attempts w) = Some rate →
     10 <= rate →
     ∃ l rest, layers (effects_of (playDown host switchId w)) = l :: rest ∧
               is_noise_body l = true).
Proof.
  intros Hp Hb. split.
  - intros c Hc now.
    pose proof (ensureCtx_existing host w c Hc) as He.
    pose proof (playDown_fields host switchId w) as Hf.
    destruct (playDown_profile host _ _ _ _ _ _ He Hp) as [w2 Hd].
    rewrite Hd in *. rewrite He in Hf. simpl in Hf.
    split; [done|]. split.
    + unfold engine_fields in Hf. simpl in *. congruence.
    + simpl. rewrite layers_app, layers_Start, layers_resumed.
      unfold down_layers, click_down. simpl. by rewrite Hb.
  - intros rate Hc Hn Hr.
    pose proof (ensureCtx_constructs host w rate Hc Hn (frames_positive _ Hr))
      as He. cbv zeta in He.
    destruct (playDown_profile host _ _ _ _ _ _ He Hp) as [w2 ->].
    cbn [effects_of]. rewrite layers_app, layers_Start, layers_resumed.
    unfold down_layers. cbn [noiseBuffer constructed app].
    by eexists _, _.
Qed.

(** C9 with the context set and no buffer, and in a new engine. *)
Lemma C9_buffer_missing_witness :
  let host := granting 48000 0.5 in
  let w := {| ctx := Some {| ctx_id := 0; sampleRate := 48000 |};
              noiseBuffer := None; attempts := 1; contexts := 1;
              buffers := 0; draws := 0; reads := 0 |} in
  (returns (playDown host "red" w) = true ∧
   noiseBuffer (world_of (playDown host "red" w)) = None ∧
   existsb is_noise_body (layers (effects_of (playDown host "red" w)))
     = false ∧
   existsb is_thud (layers (effects_of (playDown host "red" w))) = true) ∧
  (∃ l rest,
     layers (effects_of (playDown host "red" initial_world)) = l :: rest ∧
     is_noise_body l = true).
Proof.
  intros host w. split.
  - destruct (C9_buffer_missing host "red" w red eq_refl eq_refl)
      as [H1 _].
    destruct (H1 {| ctx_id := 0; sampleRate := 48000 |} eq_refl)
      as (Hr & Hn & Hl).
    split; [exact Hr|]. split; [exact Hn|]. rewrite Hl.
    split; reflexivity.
  - destruct (C9_buffer_missing host "red" initial_world red eq_refl eq_refl)
      as [_ H2].
    apply (H2 48000 eq_refl eq_refl). discriminate.
Defined.

(** C9 as stated fails in a new engine: the buffer does not exist when
    [playDown] is called, the call builds it, and the first layer it starts
    is the noise body. *)
Lemma C9_first_call_has_noise_body :
  noiseBuffer initial_world = None ∧
  ∃ l rest,
    layers (effects_of (playDown (granting 48000 0.5) "red" initial_world))
    = l :: rest ∧
    is_noise_body l = true.
Proof.
  split; [reflexivity|].
  assert (0 < Z.to_nat (Qfloor (48000 * 0.1)))%nat as Hf
    by (apply frames_positive; discriminate).
  pose proof (ensureCtx_constructs (granting 48000 0.5) initial_world 48000
                eq_refl eq_refl Hf) as He.
  cbv zeta in He.
  destruct (playDown_profile (granting 48000 0.5) "red" _ _ _ _ red He eq_refl)
    as [w2 ->].
  cbn [effects_of]. rewrite layers_app, layers_Start, layers_resumed.
  unfold down_layers. cbn [noiseBuffer constructed app].
  eexists _, _. split; reflexivity.
Qed.

(** C10, with the input where the code misses it.  On a host whose contexts
    can hold the buffer, in every world [w] that a sequence of calls leaves
    of a new engine, the buffer is set where the context is set; so a call
    that gets its context finds the buffer, and for a switchId that resolves
    to a profile [playDown] and [playUp] start the noise body.  For
    ["constructor"] the branch is entered all the same, but the filter
    frequency is [NaN]: [playDown] throws a [TypeError] and starts no
    layer. *)
Theorem C10_buffer_follows_context (host : Host) (calls : list Call) :
  rates_ok host →
  let w := run host calls initial_world in
  (is_Some (ctx w) → is_Some (noiseBuffer w)) ∧
  (∀ c w1 out, ensureCtx host w = Returns c w1 out → is_Some (noiseBuffer w1)) ∧
  (∀ switchId p,
     device_available host w = true → lookupProfile switchId = Profile p →
     existsb is_noise_body (layers (effects_of (playDown host switchId w)))
       = true ∧
     existsb is_noise_body (layers (effects_of (playUp host switchId w)))
       = true) ∧
  (device_available host w = true →
   ∃ w2 out, playDown host "constructor" w = Throws TypeError w2 out ∧
             layers out = []).
Proof.
  intros Hrates w.
  assert (ready w) as Hw by (apply ready_run; [done|apply ready_initial]).
  split; [done|].
  assert (∀ c w1 out, ensureCtx host w = Returns c w1 out →
                      is_Some (noiseBuffer w1)) as Hbuf.
  { intros c w1 out He.
    pose proof (ready_ensureCtx host Hrates w Hw) as Hr. rewrite He in Hr.
    apply Hr. simpl. rewrite (ensureCtx_Returns host w c w1 out He). by eauto. }
  split; [done|]. split.
  - intros s p Ha Hp.
    destruct (ensureCtx_available host w Ha) as (c & w1 & He & _).
    destruct (Hbuf _ _ _ He) as [b Hb].
    destruct (playDown_profile host _ _ _ _ _ _ He Hp) as [w2 ->].
    destruct (playUp_profile host _ _ _ _ _ _ He Hp) as [w3 ->].
    simpl. rewrite !layers_app, !layers_Start, layers_resumed.
    unfold down_layers, up_layers. by rewrite Hb.
  - intros Ha.
    destruct (ensureCtx_available host w Ha) as (c & w1 & He & _).
    destruct (playDown_inherited host "constructor" _ _ _ _ "constructor" He)
      as [w2 ->]; [done|].
    eexists _, _. split; [done|]. apply layers_resumed.
Qed.

(** C10 for the first call of a new engine at 48 kHz. *)
Lemma C10_buffer_follows_context_witness :
  let host := granting 48000 0.5 in
  (existsb is_noise_body
     (layers (effects_of (playDown host "red" (run host [] initial_world))))
   = true ∧
   existsb is_noise_body
     (layers (effects_of (playUp host "red" (run host [] initial_world))))
   = true) ∧
  (∃ w2 out,
     playDown host "constructor" (run host [] initial_world) =
       Throws TypeError w2 out ∧
     layers out = []).
Proof.
  intros host.
  destruct (C10_buffer_follows_context host [])
    as (_ & _ & H3 & H4).
  - apply rates_ok_granting. discriminate.
  - split.
    + apply (H3 "red" red); reflexivity.
    + apply H4. reflexivity.
Defined.

(** * Further properties of the engine *)

Lemma perform_effects (host : Host) (call : Call) (w : World) c w1 out1 :
  ensureCtx host w = Returns c w1 out1 →
  effects_of (perform host call w) =
  out1 ++ map Start (layers (effects_of (perform host call w))).
Proof.
  intros He.
  assert (∀ ls, layers (out1 ++ map Start ls) = layers out1 ++ ls) as Hl
    by (intros ls; by rewrite layers_app, layers_Start).
  assert (layers out1 = []) as Hout.
  { pose proof (emits_ensureCtx host (λ _, False) w) as Hf.
    rewrite He in Hf. simpl in Hf. by destruct Hf. }
  destruct (lookupProfile (switch_of call)) as [p|name] eqn:Hp;
    destruct call as [s|s]; simpl in Hp; simpl.
  - destruct (playDown_profile host _ _ _ _ _ _ He Hp) as [w2 ->]. simpl.
    by rewrite Hl, Hout.
  - destruct (playUp_profile host _ _ _ _ _ _ He Hp) as [w2 ->]. simpl.
    by rewrite Hl, Hout.
  - destruct (playDown_inherited host _ _ _ _ _ _ He Hp) as [w2 ->]. simpl.
    by rewrite Hout, app_nil_r.
  - destruct (playUp_inherited host _ _ _ _ _ _ He Hp) as (w2 & -> & _).
    by rewrite Hout, app_nil_r.
Qed.

Lemma resumes_app (out1 out2 : list Effect) :
  resumes (out1 ++ out2) = (resumes out1 + resumes out2)%nat.
Proof.
  induction out1 as [|[c|l] out1 IH]; simpl; [done|by rewrite IH|done].
Qed.

Lemma resumes_Start (ls : list Layer) : resumes (map Start ls) = 0%nat.
Proof. by induction ls. Qed.

(** A name that [Object.prototype] does not define resolves to one of the
    five profiles. *)
Lemma lookupProfile_table (switchId : string) :
  switchId ∉ Object_prototype →
  ∃ p, lookupProfile switchId = Profile p ∧
       (p = red ∨ p = blue ∨ p = brown ∨ p = speed ∨ p = black).
Proof.
  intros Hn. unfold lookupProfile, PROFILES_get.
  destruct (PROFILES !! switchId) as [p|] eqn:Hp; simpl.
  - exists p. split; [done|].
    apply PROFILES_lookup_Some in Hp.
    destruct Hp as [[_ ->]|[[_ ->]|[[_ ->]|[[_ ->]|[_ ->]]]]]; auto 10.
  - rewrite decide_False by done. simpl. exists red. auto.
Qed.

Lemma perform_layers (host : Host) (call : Call) (w : World) c w1 out1 p :
  ensureCtx host w = Returns c w1 out1 →
  lookupProfile (switch_of call) = Profile p →
  layers (effects_of (perform host call w)) =
  match call with
  | Down _ => down_layers host p w1
  | Up _ => up_layers host p w1
  end.
Proof.
  intros He Hp.
  assert (layers out1 = []) as Hout.
  { pose proof (emits_ensureCtx host (λ _, False) w) as Hf.
    rewrite He in Hf. simpl in Hf. by destruct Hf. }
  destruct call as [s|s]; simpl in *.
  - destruct (playDown_profile host _ _ _ _ _ _ He Hp) as [w2 ->]. simpl.
    by rewrite layers_app, layers_Start, Hout.
  - destruct (playUp_profile host _ _ _ _ _ _ He Hp) as [w2 ->]. simpl.
    by rewrite layers_app, layers_Start, Hout.
Qed.

(** X1.  A refused construction is not remembered: the call throws and
    leaves the context unset, the next call asks the host again, and when
    the host then grants a context that call constructs it with its
    buffer. *)
Theorem X1_retry_after_refusal (host : Host) (first second : Call)
    (w : World) (rate : Q) :
  ctx w = None → construct host (attempts w) = None →
  construct host (S (attempts w)) = Some rate → 10 <= rate →
  let w1 := world_of (perform host first w) in
  let w2 := world_of (perform host second w1) in
  returns (perform host first w) = false ∧
  ctx w1 = None ∧ noiseBuffer w1 = noiseBuffer w ∧
  attempts w1 = S (attempts w) ∧ contexts w1 = contexts w ∧
  ctx w2 = Some {| ctx_id := S (attempts w); sampleRate := rate |} ∧
  is_Some (noiseBuffer w2) ∧ contexts w2 = S (contexts w).
Proof.
  intros Hc Hn Hg Hr w1 w2.
  pose proof (ensureCtx_refused host w Hc Hn) as He.
  assert (perform host first w = Throws ConstructionError (refused w) [])
    as Hfirst.
  { destruct first; simpl; by apply play_throws. }
  assert (w1 = refused w) as Hw1 by (unfold w1; by rewrite Hfirst).
  rewrite Hfirst. split; [done|].
  rewrite Hw1. do 4 (split; [done|]).
  pose proof (perform_fields host second w1) as Hf. fold w2 in Hf.
  rewrite Hw1 in Hf.
  rewrite (ensureCtx_constructs host (refused w) rate Hc Hg
             (frames_positive _ Hr)) in Hf.
  unfold engine_fields in Hf. simpl in Hf.
  injection Hf as -> -> _ -> _. by eauto.
Qed.

(** X1 on a host that refuses once and then grants 48 kHz. *)
Lemma X1_retry_after_refusal_witness :
  let host := {| construct := λ n, match n with O => None | _ => Some 48000 end;
                 random := λ _, 0.5; suspended := λ _, false;
                 clock := λ _, 0 |} in
  let w1 := world_of (perform host (Down "red") initial_world) in
  let w2 := world_of (perform host (Up "red") w1) in
  returns (perform host (Down "red") initial_world) = false ∧
  ctx w1 = None ∧ noiseBuffer w1 = None ∧
  attempts w1 = 1%nat ∧ contexts w1 = 0%nat ∧
  ctx w2 = Some {| ctx_id := 1; sampleRate := 48000 |} ∧
  is_Some (noiseBuffer w2) ∧ contexts w2 = 1%nat.
Proof.
  intros host.
  exact (X1_retry_after_refusal host (Down "red") (Up "red") initial_world
           48000 eq_refl eq_refl eq_refl ltac:(discriminate)).
Defined.

(** X2.  A call that gets its context asks the context to resume exactly
    when the context reports that it is suspended, once, and before it
    starts any layer: the effects of the call are that request, if any,
    followed by the layers. *)
Theorem X2_resume_before_layers (host : Host) (call : Call) (w : World) :
  device_available host w = true →
  ∃ c,
    ctx (world_of (perform host call w)) = Some c ∧
    effects_of (perform host call w) =
      (if suspended host (reads w) then [Resume c] else [])
      ++ map Start (layers (effects_of (perform host call w))) ∧
    resumes (effects_of (perform host call w)) =
      (if suspended host (reads w) then 1 else 0)%nat.
Proof.
  intros Ha.
  destruct (ensureCtx_available host w Ha) as (c & w1 & He & Hc & _).
  exists c. split.
  - pose proof (perform_fields host call w) as Hf. rewrite He in Hf.
    unfold engine_fields in Hf. simpl in Hf. congruence.
  - pose proof (perform_effects host call w c w1 _ He) as Hp.
    unfold resumed in Hp. split; [exact Hp|].
    rewrite Hp, resumes_app, resumes_Start.
    by destruct (suspended host (reads w)).
Qed.

(** X2 for the first call on a host whose context starts suspended. *)
Lemma X2_resume_before_layers_witness :
  let host := {| construct := λ _, Some 48000; random := λ _, 0.5;
                 suspended := λ _, true; clock := λ _, 0 |} in
  ∃ c,
    ctx (world_of (perform host (Down "blue") initial_world)) = Some c ∧
    effects_of (perform host (Down "blue") initial_world) =
      [Resume c]
      ++ map Start
           (layers (effects_of (perform host (Down "blue") initial_world))) ∧
    resumes (effects_of (perform host (Down "blue") initial_world)) = 1%nat.
Proof.
  intros host.
  exact (X2_resume_before_layers host (Down "blue") initial_world eq_refl).
Defined.

Ltac table_profile H :=
  destruct H as [->|[->|[->|[->| ->]]]].

(** X3.  For a switchId that resolves to a profile, every layer of a call
    starts at the [now] the call read from the clock, its gain ramp ends
    after [now], and the source stops after the ramp has ended: no layer is
    cut before its envelope is over. *)
Theorem X3_layers_timing (host : Host) (call : Call) (w : World) :
  device_available host w = true → switch_of call ∉ Object_prototype →
  ∃ c w1,
    ensureCtx host w = Returns c w1 (resumed host c w) ∧
    Forall (timed_from (clock host (reads w1)))
      (layers (effects_of (perform host call w))).
Proof.
  intros Ha Hs.
  destruct (ensureCtx_available host w Ha) as (c & w1 & He & _).
  destruct (lookupProfile_table _ Hs) as (p & Hp & Htable).
  exists c, w1. split; [done|].
  rewrite (perform_layers host call w c w1 _ p He Hp).
  set (now := clock host (reads w1)).
  unfold timed_from.
  destruct call as [s|s]; unfold down_layers, up_layers, click_down, click_up;
    fold now; destruct (noiseBuffer w1) as [b|];
    table_profile Htable; simpl;
    repeat (constructor; [simpl; repeat split; lra|]);
    constructor.
Qed.

(** X3 for the first call of a new engine. *)
Lemma X3_layers_timing_witness :
  let host := granting 48000 0.5 in
  ∃ c w1,
    ensureCtx host initial_world =
      Returns c w1 (resumed host c initial_world) ∧
    Forall (timed_from (clock host (reads w1)))
      (layers (effects_of (perform host (Down "brown") initial_world))).
Proof.
  intros host.
  apply (X3_layers_timing host (Down "brown") initial_world).
  - reflexivity.
  - apply (bool_decide_eq_false_1 ("brown" ∈ Object_prototype)).
    vm_compute. reflexivity.
Defined.

(** X4.  For a switchId that resolves to a profile, with [Math.random()] in
    [0, 1): the gain of every layer of a call ramps down, to 0.001 from a
    start above it, and the gains that the layers of the call start with
    add up to less than 1. *)
Theorem X4_gains_decay (host : Host) (call : Call) (w : World) :
  device_available host w = true → switch_of call ∉ Object_prototype →
  random_ok host →
  Forall decays (layers (effects_of (perform host call w))) ∧
  sum_gains (layers (effects_of (perform host call w))) < 1.
Proof.
  intros Ha Hs Hrand.
  destruct (ensureCtx_available host w Ha) as (c & w1 & He & _).
  destruct (lookupProfile_table _ Hs) as (p & Hp & Htable).
  rewrite (perform_layers host call w c w1 _ p He Hp).
  destruct (Hrand (S (draws w1))) as [H0 H1].
  unfold decays.
  destruct call as [s|s]; unfold down_layers, up_layers, click_down, click_up;
    destruct (noiseBuffer w1) as [b|];
    table_profile Htable; simpl; unfold jitter_value, default_amount;
    (split;
     [ repeat (constructor; [simpl; repeat split; (reflexivity || lra)|]);
       constructor
     | simpl; lra ]).
Qed.

(** X4 for the first call of a new engine. *)
Lemma X4_gains_decay_witness :
  let host := granting 48000 0.5 in
  Forall decays
    (layers (effects_of (perform host (Down "blue") initial_world))) ∧
  sum_gains (layers (effects_of (perform host (Down "blue") initial_world)))
    < 1.
Proof.
  intros host.
  apply (X4_gains_decay host (Down "blue") initial_world).
  - reflexivity.
  - apply (bool_decide_eq_false_1 ("blue" ∈ Object_prototype)).
    vm_compute. reflexivity.
  - apply random_ok_granting; [discriminate|reflexivity].
Defined.

Lemma ceiling_floor (len : Q) :
  (Qfloor len <= Qceiling len <= Qfloor len + 1)%Z ∧
  (Qceiling len = Qfloor len ↔ inject_Z (Qfloor len) == len).
Proof.
  pose proof (Qfloor_le len) as Hf. pose proof (Qlt_floor len) as Hf'.
  pose proof (Qle_ceiling len) as Hc. pose proof (Qceiling_lt len) as Hc'.
  assert (Qfloor len <= Qceiling len)%Z as H1 by (rewrite Zle_Qle; lra).
  assert (Qceiling len - 1 < Qfloor len + 1)%Z as H2
    by (rewrite Zlt_Qlt; lra).
  split; [lia|]. split.
  - intros Heq. rewrite Heq in Hc. lra.
  - intros Heq. by rewrite <- (Qceiling_comp _ _ Heq), Qceiling_Z.
Qed.

(** X5.  [buildNoiseBuffer] runs its loop, and draws from [Math.random()],
    once for every index below [len = sampleRate * 0.1]: as many times as
    the buffer has samples when [len] is an integer, and once more when it
    is not; that last write falls outside the buffer and is dropped. *)
Theorem X5_loop_past_the_buffer (host : Host) (w : World) (c : AudioContext) :
  ctx w = Some c → 10 <= sampleRate c →
  let len := sampleRate c * 0.1 in
  let iterations := Z.to_nat (Qceiling len) in
  ∃ w' b,
    buildNoiseBuffer host w = Returns () w' [] ∧
    noiseBuffer w' = Some b ∧
    draws w' = (iterations + draws w)%nat ∧
    (inject_Z (Qfloor len) == len → iterations = length (channelData b)) ∧
    (¬ inject_Z (Qfloor len) == len →
     iterations = S (length (channelData b))).
Proof.
  intros Hc Hr len iterations.
  pose proof (frames_positive _ Hr) as Hf.
  rewrite (buildNoiseBuffer_built host w c Hc Hf). fold len.
  eexists _, _. split; [reflexivity|]. split; [reflexivity|].
  cbn [draws channelData]. rewrite fill_length, length_replicate.
  unfold loop_indices. rewrite length_seq. fold iterations.
  split; [done|].
  destruct (ceiling_floor len) as [Hb Hi]. fold len in Hf.
  split; intros Hint.
  - apply Hi in Hint. unfold iterations. by rewrite Hint.
  - assert (Qceiling len = Qfloor len + 1)%Z as Heq.
    { destruct (decide (Qceiling len = Qfloor len)) as [He|He];
        [by apply Hi in He|lia]. }
    unfold iterations. rewrite Heq. lia.
Qed.

(** X5 at 11025 Hz, where [len] is 1102.5: 1103 draws for 1102 samples. *)
Lemma X5_loop_past_the_buffer_witness :
  let host := granting 11025 0.5 in
  let w := {| ctx := Some {| ctx_id := 0; sampleRate := 11025 |};
              noiseBuffer := None; attempts := 1; contexts := 1;
              buffers := 0; draws := 0; reads := 0 |} in
  ∃ w' b,
    buildNoiseBuffer host w = Returns () w' [] ∧
    noiseBuffer w' = Some b ∧
    draws w' = 1103%nat ∧ length (channelData b) = 1102%nat.
Proof.
  intros host w.
  destruct (X5_loop_past_the_buffer host w
              {| ctx_id := 0; sampleRate := 11025 |} eq_refl)
    as (w' & b & Hb & Hn & Hd & _ & Hodd).
  - discriminate.
  - exists w', b. split; [exact Hb|]. split; [exact Hn|].
    split; [exact Hd|].
    assert (Z.to_nat (Qceiling (11025 * 0.1)) = S (length (channelData b)))
      as Hl by (apply Hodd; discriminate).
    injection Hl as Hl. symmetry. exact Hl.
Defined.

(** * Properties of the store *)

Lemma find_option_Some (category : Store.Category) (optionId : string)
    (o : Store.ConfigOption) :
  Store.find_option category optionId = Some o →
  o ∈ Store.OPTIONS category ∧ Store.id o = optionId.
Proof.
  unfold Store.find_option. intros Hf. apply List.find_some in Hf.
  destruct Hf as [Hin Heq]. split.
  - by apply list_elem_of_In.
  - by apply String.eqb_eq.
Qed.

Lemma find_option_None (category : Store.Category) (optionId : string) :
  (∀ o, o ∈ Store.OPTIONS category → Store.id o ≠ optionId) →
  Store.find_option category optionId = None.
Proof.
  intros Hno. destruct (Store.find_option category optionId) as [o|] eqn:Hf;
    [|done].
  apply find_option_Some in Hf. destruct Hf as [Hin Hid].
  by destruct (Hno o Hin).
Qed.

(** X6.  [selectOption] with an id that the category does not offer (an
    unknown id, the id of an option of another category) changes nothing
    in the store. *)
Theorem X6_selectOption_unknown (category : Store.Category)
    (optionId : string) (state : Store.ConfiguratorState) :
  (∀ o, o ∈ Store.OPTIONS category → Store.id o ≠ optionId) →
  Store.selectOption category optionId state = state.
Proof.
  intros Hno. unfold Store.selectOption.
  by rewrite (find_option_None category optionId Hno).
Qed.

(** X6 for a switch id given to the body. *)
Lemma X6_selectOption_unknown_witness :
  Store.selectOption Store.body "red" Store.initial = Store.initial.
Proof.
  apply (X6_selectOption_unknown Store.body "red" Store.initial).
  intros o Ho. simpl in Ho.
  repeat (apply elem_of_cons in Ho; destruct Ho as [->|Ho]; [discriminate|]).
  by apply elem_of_nil in Ho.
Defined.

Lemma consistent_initial : consistent Store.initial.
Proof. intros []; eexists; split; reflexivity. Qed.

Lemma consistent_act (a : Store.Action) (state : Store.ConfiguratorState) :
  consistent state → consistent (Store.act a state).
Proof.
  intros Hs. destruct a as [c|c optionId|]; simpl.
  - intros category. apply (Hs category).
  - unfold Store.selectOption.
    destruct (Store.find_option c optionId) as [o|] eqn:Hf; [|done].
    intros category. destruct (Hs category) as (o' & Ho' & Hc').
    destruct c, category; simpl in *; eauto.
  - intros category. apply (Hs category).
Qed.

Lemma consistent_after (actions : list Store.Action)
    (state : Store.ConfiguratorState) :
  consistent state → consistent (Store.after actions state).
Proof.
  unfold Store.after. revert state.
  induction actions as [|a actions IH]; intros s Hc; [done|].
  simpl. apply IH. by apply consistent_act.
Qed.

(** X7.  After every sequence of actions on the new store, every category
    holds the id of one of its options, and the color that the store holds
    for the category is the color of that option. *)
Theorem X7_store_consistent (actions : list Store.Action) :
  let state := Store.after actions Store.initial in
  ∀ category,
    ∃ o,
      o ∈ Store.OPTIONS category ∧
      Store.id o = Store.selected category (Store.selectedOptions state) ∧
      Store.color o = Store.color_of category state.
Proof.
  intros state category.
  assert (consistent state) as Hs
    by apply consistent_after, consistent_initial.
  destruct (Hs category) as (o & Hf & Hc).
  apply find_option_Some in Hf. destruct Hf as [Hin Hid].
  exists o. by rewrite Hc.
Qed.

(** X8.  Selections in two different categories commute, the same
    selection twice is the selection once, and neither changes the sound
    switch or the active category. *)
Theorem X8_selections_commute (c1 c2 : Store.Category) (i1 i2 : string)
    (state : Store.ConfiguratorState) :
  (c1 ≠ c2 →
   Store.selectOption c1 i1 (Store.selectOption c2 i2 state) =
   Store.selectOption c2 i2 (Store.selectOption c1 i1 state)) ∧
  Store.selectOption c1 i1 (Store.selectOption c1 i1 state) =
    Store.selectOption c1 i1 state ∧
  Store.soundEnabled (Store.selectOption c1 i1 state) =
    Store.soundEnabled state ∧
  Store.activeCategory (Store.selectOption c1 i1 state) =
    Store.activeCategory state.
Proof.
  unfold Store.selectOption.
  destruct (Store.find_option c1 i1) as [o1|] eqn:H1;
    destruct (Store.find_option c2 i2) as [o2|] eqn:H2;
    repeat split; try done;
    try (intros Hne; destruct c1, c2; try done; simpl;
         rewrite ?H1, ?H2; done);
    simpl; rewrite ?H1; destruct c1; done.
Qed.

(** X8 for a body and a switch. *)
Lemma X8_selections_commute_witness :
  Store.selectOption Store.body "rose"
    (Store.selectOption Store.switches "blue" Store.initial) =
  Store.selectOption Store.switches "blue"
    (Store.selectOption Store.body "rose" Store.initial).
Proof.
  apply (X8_selections_commute Store.body Store.switches "rose" "blue"
           Store.initial).
  discriminate.
Defined.

Lemma premium_offered :
  (∀ i, i ∈ Store.PREMIUM_BODIES →
        is_Some (Store.find_option Store.body i)) ∧
  (∀ i, i ∈ Store.PREMIUM_KEYCAPS →
        is_Some (Store.find_option Store.keycaps i)) ∧
  (∀ i, i ∈ Store.PREMIUM_SWITCHES →
        is_Some (Store.find_option Store.switches i)).
Proof.
  unfold Store.PREMIUM_BODIES, Store.PREMIUM_KEYCAPS, Store.PREMIUM_SWITCHES.
  repeat split; intros i; rewrite ?elem_of_union, !elem_of_singleton;
    intuition (subst; by eexists).
Qed.

(** X9.  The price is the base price of 349 plus one surcharge per
    category: a selection changes it by the difference between the
    surcharge of the new option and that of the option it replaces, it
    stays between 349 and 419, the new store shows 349, and every premium id
    is an option of its category. *)
Theorem X9_price_by_category (category : Store.Category) (optionId : string)
    (state : Store.ConfiguratorState) :
  (is_Some (Store.find_option category optionId) →
   Store.price (Store.selectedOptions
                  (Store.selectOption category optionId state)) =
   (Store.price (Store.selectedOptions state)
    - Store.surcharge category
        (Store.selected category (Store.selectedOptions state))
    + Store.surcharge category optionId)%Z) ∧
  (349 <= Store.price (Store.selectedOptions state) <= 419)%Z ∧
  Store.price (Store.selectedOptions Store.initial) = 349%Z ∧
  (0 < Store.surcharge category optionId →
   is_Some (Store.find_option category optionId))%Z.
Proof.
  split; [|split; [|split]].
  - intros [o Ho]. unfold Store.selectOption. rewrite Ho.
    unfold Store.price, Store.surcharge.
    destruct category; simpl; repeat case_decide; lia.
  - unfold Store.price. repeat case_decide; lia.
  - reflexivity.
  - destruct premium_offered as (Hb & Hk & Hs).
    unfold Store.surcharge. destruct category; case_decide; try lia; eauto.
Qed.

(** X9 for the rose body on the new store: 30 more. *)
Lemma X9_price_by_category_witness :
  Store.price (Store.selectedOptions
                 (Store.selectOption Store.body "rose" Store.initial)) =
  379%Z.
Proof.
  destruct (X9_price_by_category Store.body "rose" Store.initial)
    as (Hp & _).
  rewrite Hp.
  - reflexivity.
  - eexists. reflexivity.
Defined.

(** * Properties of the key handlers *)

Lemma scene_eta (sc : Keyboard.Scene) :
  {| Keyboard.pressedKeys := Keyboard.pressedKeys sc;
     Keyboard.engine := Keyboard.engine sc |} = sc.
Proof. by destruct sc. Qed.

Lemma handle_off (host : Host) (switchId : string) (input : Keyboard.Input)
    (sc : Keyboard.Scene) :
  Keyboard.sound (Keyboard.handle host switchId false input sc) = [] ∧
  Keyboard.thrown (Keyboard.handle host switchId false input sc) = None ∧
  Keyboard.engine
    (Keyboard.scene (Keyboard.handle host switchId false input sc)) =
  Keyboard.engine sc.
Proof.
  destruct input as [e|e|i|i|i];
    unfold Keyboard.handle, Keyboard.down, Keyboard.up,
      Keyboard.handleKeyPointerDown, Keyboard.handleKeyPointerUp,
      Keyboard.handlePointerLeave;
    try destruct (Keyboard.KEY_MAP_get (Keyboard.code e));
    try destruct (negb (Keyboard.repeat e));
    repeat split; reflexivity.
Qed.

(** X10.  While the store has the sound switched off, no input reaches the
    engine: a handler has no effect on the audio graph, throws nothing and
    leaves the engine as it is, and so does every sequence of inputs; on a
    new page no audio context is constructed. *)
Theorem X10_sound_off (host : Host) (state : Store.ConfiguratorState)
    (inputs : list Keyboard.Input) (sc : Keyboard.Scene) :
  Store.soundEnabled state = false →
  (∀ input,
     Keyboard.sound (Keyboard.wired host state input sc) = [] ∧
     Keyboard.thrown (Keyboard.wired host state input sc) = None) ∧
  Keyboard.engine
    (Keyboard.handle_all host
       (Store.of_switches (Store.selectedOptions state))
       (Store.soundEnabled state) inputs sc) =
  Keyboard.engine sc.
Proof.
  intros Hoff. unfold Keyboard.wired. rewrite Hoff. split.
  - intros input. split; apply handle_off.
  - revert sc. induction inputs as [|input inputs IH]; intros sc;
      [reflexivity|].
    unfold Keyboard.handle_all in *. cbn [foldl]. rewrite IH.
    apply handle_off.
Qed.

(** X10 after the sound switch of the new store is toggled. *)
Lemma X10_sound_off_witness :
  let state := Store.toggleSound Store.initial in
  let e := {| Keyboard.code := "KeyA"; Keyboard.repeat := false |} in
  Keyboard.engine
    (Keyboard.handle_all refusing
       (Store.of_switches (Store.selectedOptions state))
       (Store.soundEnabled state)
       [Keyboard.KeyDown e; Keyboard.KeyUp e; Keyboard.PointerDown 3]
       Keyboard.initial) =
  Keyboard.engine Keyboard.initial.
Proof.
  intros state e.
  apply (X10_sound_off refusing state
           [Keyboard.KeyDown e; Keyboard.KeyUp e; Keyboard.PointerDown 3]
           Keyboard.initial).
  reflexivity.
Defined.

Lemma handle_ignored (host : Host) (switchId : string) (isSoundOn : bool)
    (input : Keyboard.Input) (sc : Keyboard.Scene) :
  ignored input →
  Keyboard.handle host switchId isSoundOn input sc =
  Keyboard.quiet (Keyboard.pressedKeys sc) (Keyboard.engine sc).
Proof.
  destruct input as [e|e|i|i|i]; unfold ignored, Keyboard.handle;
    [| |intros []..].
  - unfold Keyboard.down. intros [Hr|Hn].
    + rewrite Hr.
      destruct (Keyboard.KEY_MAP_get (Keyboard.code e)); reflexivity.
    + rewrite Hn. reflexivity.
  - unfold Keyboard.up. intros ->. reflexivity.
Qed.

(** X11.  A key that is held plays its sound once: the [keydown] events
    that repeat, and the events of keys that the model does not have, leave
    the pressed keys and the engine as they are and throw nothing, whether
    the sound is on or off, however many there are. *)
Theorem X11_repeats_and_unmapped_keys (host : Host) (switchId : string)
    (isSoundOn : bool) (inputs : list Keyboard.Input) (sc : Keyboard.Scene) :
  Forall ignored inputs →
  Keyboard.handle_all host switchId isSoundOn inputs sc = sc ∧
  Forall (λ input,
            Keyboard.sound (Keyboard.handle host switchId isSoundOn input sc)
              = [] ∧
            Keyboard.thrown (Keyboard.handle host switchId isSoundOn input sc)
              = None) inputs.
Proof.
  intros Hall. split.
  - induction Hall as [|input inputs Hi _ IH]; [reflexivity|].
    unfold Keyboard.handle_all in *. cbn [foldl].
    rewrite (handle_ignored _ _ _ _ _ Hi).
    unfold Keyboard.quiet. cbn [Keyboard.scene].
    rewrite scene_eta. exact IH.
  - eapply Forall_impl; [exact Hall|]. intros input Hi.
    rewrite (handle_ignored _ _ _ _ _ Hi). split; reflexivity.
Qed.

(** X11 for a held A and the key F1. *)
Lemma X11_repeats_and_unmapped_keys_witness :
  let held := {| Keyboard.code := "KeyA"; Keyboard.repeat := true |} in
  let f1 := {| Keyboard.code := "F1"; Keyboard.repeat := false |} in
  Keyboard.handle_all refusing "blue" true
    [Keyboard.KeyDown held; Keyboard.KeyDown held; Keyboard.KeyDown f1;
     Keyboard.KeyUp f1] Keyboard.initial =
  Keyboard.initial.
Proof.
  intros held f1.
  apply (X11_repeats_and_unmapped_keys refusing "blue" true
           [Keyboard.KeyDown held; Keyboard.KeyDown held; Keyboard.KeyDown f1;
            Keyboard.KeyUp f1] Keyboard.initial).
  constructor; [left; reflexivity|].
  constructor; [left; reflexivity|].
  constructor; [right; vm_compute; reflexivity|].
  constructor; [vm_compute; reflexivity|].
  constructor.
Defined.

Lemma pressed_sounded (pressed : gset Keyboard.Pressed) (o : Outcome unit) :
  Keyboard.pressedKeys (Keyboard.scene (Keyboard.sounded pressed o)) = pressed.
Proof. by destruct o. Qed.

Lemma pressed_down (host : Host) (switchId : string) (isSoundOn : bool)
    (e : Keyboard.KeyboardEvent) (sc : Keyboard.Scene) k :
  Keyboard.KEY_MAP_get (Keyboard.code e) = Some k →
  Keyboard.repeat e = false →
  Keyboard.pressedKeys
    (Keyboard.scene (Keyboard.down host switchId isSoundOn e sc)) =
  {[ k ]} ∪ Keyboard.pressedKeys sc.
Proof.
  intros Hk Hr. unfold Keyboard.down. rewrite Hk, Hr. cbn [negb].
  destruct isSoundOn; [apply pressed_sounded|reflexivity].
Qed.

Lemma pressed_up (host : Host) (switchId : string) (isSoundOn : bool)
    (e : Keyboard.KeyboardEvent) (sc : Keyboard.Scene) k :
  Keyboard.KEY_MAP_get (Keyboard.code e) = Some k →
  Keyboard.pressedKeys
    (Keyboard.scene (Keyboard.up host switchId isSoundOn e sc)) =
  Keyboard.pressedKeys sc ∖ {[ k ]}.
Proof.
  intros Hk. unfold Keyboard.up. rewrite Hk.
  destruct isSoundOn; [apply pressed_sounded|reflexivity].
Qed.

Lemma pressed_pointer (host : Host) (switchId : string) (isSoundOn : bool)
    (i : nat) (sc : Keyboard.Scene) :
  Keyboard.pressedKeys
    (Keyboard.scene
       (Keyboard.handleKeyPointerDown host switchId isSoundOn i sc)) =
  {[ inl i ]} ∪ Keyboard.pressedKeys sc ∧
  Keyboard.pressedKeys
    (Keyboard.scene
       (Keyboard.handleKeyPointerUp host switchId isSoundOn i sc)) =
  Keyboard.pressedKeys sc ∖ {[ inl i ]}.
Proof.
  unfold Keyboard.handleKeyPointerDown, Keyboard.handleKeyPointerUp.
  destruct isSoundOn; split; (apply pressed_sounded || reflexivity).
Qed.

(** X12.  Press and release of a key cancel on the pressed keys: after the
    [keydown] of a key of the model the key is pressed, after its [keyup]
    it is not, and when it was not pressed before the pressed keys are what
    they were; whether the sound is on or off, and even when the engine
    throws. *)
Theorem X12_press_release (host : Host) (switchId : string)
    (isSoundOn : bool) (code : string) (i : nat) (sc : Keyboard.Scene) :
  Keyboard.KEY_MAP !! code = Some i →
  let press := {| Keyboard.code := code; Keyboard.repeat := false |} in
  let release := {| Keyboard.code := code; Keyboard.repeat := false |} in
  let sc1 := Keyboard.scene (Keyboard.down host switchId isSoundOn press sc) in
  let sc2 := Keyboard.scene (Keyboard.up host switchId isSoundOn release sc1) in
  inl i ∈ Keyboard.pressedKeys sc1 ∧
  (inl i ∉ Keyboard.pressedKeys sc2) ∧
  (inl i ∉ Keyboard.pressedKeys sc →
   Keyboard.pressedKeys sc2 = Keyboard.pressedKeys sc).
Proof.
  intros Hi press release sc1 sc2.
  assert (Keyboard.KEY_MAP_get code = Some (inl i)) as Hk
    by (unfold Keyboard.KEY_MAP_get; by rewrite Hi).
  assert (Keyboard.pressedKeys sc1 = {[ inl i ]} ∪ Keyboard.pressedKeys sc)
    as H1 by (by apply pressed_down).
  assert (Keyboard.pressedKeys sc2 = Keyboard.pressedKeys sc1 ∖ {[ inl i ]})
    as H2 by (by apply pressed_up).
  rewrite H2, H1. split; [|split].
  - apply elem_of_union_l. by apply elem_of_singleton.
  - rewrite elem_of_difference, elem_of_singleton. tauto.
  - intros Hnot. apply set_eq. intros k.
    rewrite elem_of_difference, elem_of_union, elem_of_singleton.
    split; [tauto|]. intros Hk'. split; [tauto|]. by intros ->.
Qed.

(** X12 for the space bar on a new page whose host refuses the context. *)
Lemma X12_press_release_witness :
  let press := {| Keyboard.code := "Space"; Keyboard.repeat := false |} in
  let sc1 := Keyboard.scene (Keyboard.down refusing "red" true press
                               Keyboard.initial) in
  let sc2 := Keyboard.scene (Keyboard.up refusing "red" true press sc1) in
  inl 56%nat ∈ Keyboard.pressedKeys sc1 ∧
  (inl 56%nat ∉ Keyboard.pressedKeys sc2) ∧
  Keyboard.pressedKeys sc2 = Keyboard.pressedKeys Keyboard.initial.
Proof.
  intros press sc1 sc2.
  destruct (X12_press_release refusing "red" true "Space" 56
              Keyboard.initial) as (H1 & H2 & H3).
  - vm_compute. reflexivity.
  - split; [exact H1|]. split; [exact H2|].
    apply H3. apply not_elem_of_empty.
Defined.

(** ** The key map and the layout *)

Lemma KEY_MAP_listed (code : string) (i : nat) :
  Keyboard.KEY_MAP !! code = Some i ↔ (code, i) ∈ Keyboard.KEY_LIST.
Proof.
  unfold Keyboard.KEY_MAP. split.
  - apply elem_of_list_to_map_2.
  - apply elem_of_list_to_map_1.
    refine (bool_decide_unpack _ _). vm_compute. reflexivity.
Qed.

Lemma generateKeys_length : length Layout.generateKeys = 60%nat.
Proof. reflexivity. Qed.

Lemma KEY_MAP_range (code : string) (i : nat) :
  Keyboard.KEY_MAP !! code = Some i → (i < length Layout.generateKeys)%nat.
Proof.
  intros Hi. apply KEY_MAP_listed in Hi. rewrite generateKeys_length.
  assert (Forall (λ ci, (ci.2 < 60)%nat) Keyboard.KEY_LIST) as Hrange
    by (refine (bool_decide_unpack _ _); vm_compute; reflexivity).
  rewrite Forall_forall in Hrange. apply (Hrange _ Hi).
Qed.

(** X13.  The key map and the layout agree: every key code of the map is
    the number of a keycap of the layout, two codes never share a keycap,
    and every keycap has a code. *)
Theorem X13_key_map_matches_layout :
  (∀ code i, Keyboard.KEY_MAP !! code = Some i →
             (i < length Layout.generateKeys)%nat) ∧
  (∀ code code' i, Keyboard.KEY_MAP !! code = Some i →
                   Keyboard.KEY_MAP !! code' = Some i → code = code') ∧
  (∀ i, (i < length Layout.generateKeys)%nat →
        ∃ code, Keyboard.KEY_MAP !! code = Some i).
Proof.
  assert (NoDup (Keyboard.KEY_LIST.*2)) as Hinj
    by (refine (bool_decide_unpack _ _); vm_compute; reflexivity).
  assert (Keyboard.KEY_LIST.*2 = seq 0 60) as Hseq by reflexivity.
  split; [|split].
  - apply KEY_MAP_range.
  - intros code code' i H1 H2. apply KEY_MAP_listed in H1, H2.
    apply list_elem_of_lookup in H1, H2.
    destruct H1 as [j Hj]. destruct H2 as [j' Hj'].
    assert (j = j') as <-.
    { eapply NoDup_lookup; [exact Hinj|..];
        rewrite list_lookup_fmap; [by rewrite Hj|by rewrite Hj']. }
    congruence.
  - rewrite generateKeys_length. intros i Hi.
    assert (i ∈ Keyboard.KEY_LIST.*2) as Hin
      by (rewrite Hseq; apply elem_of_seq; lia).
    apply list_elem_of_fmap in Hin. destruct Hin as ([code i'] & -> & Hin).
    exists code. by apply KEY_MAP_listed.
Qed.

(** X13 for the space bar and for the first keycap. *)
Lemma X13_key_map_matches_layout_witness :
  Keyboard.KEY_MAP !! "Space" = Some 56%nat ∧
  (56 < length Layout.generateKeys)%nat ∧
  ∃ code, Keyboard.KEY_MAP !! code = Some 0%nat.
Proof.
  destruct X13_key_map_matches_layout as (Hrange & _ & Hcode).
  assert (Keyboard.KEY_MAP !! "Space" = Some 56%nat) as Hspace
    by (vm_compute; reflexivity).
  split; [exact Hspace|]. split; [exact (Hrange _ _ Hspace)|].
  apply Hcode. rewrite generateKeys_length. lia.
Defined.

Lemma KEY_MAP_get_model (code : string) (k : Keyboard.Pressed) :
  code ∉ Object_prototype → Keyboard.KEY_MAP_get code = Some k →
  ∃ i, k = inl i ∧ (i < length Layout.generateKeys)%nat.
Proof.
  intros Hn. unfold Keyboard.KEY_MAP_get.
  destruct (Keyboard.KEY_MAP !! code) as [i|] eqn:Hi.
  - intros [= <-]. exists i. split; [done|]. by apply (KEY_MAP_range code).
  - by rewrite decide_False.
Qed.

Lemma model_keys_union (k : Keyboard.Pressed) (pressed : gset Keyboard.Pressed) :
  (∃ i, k = inl i ∧ (i < length Layout.generateKeys)%nat) →
  model_keys pressed → model_keys ({[ k ]} ∪ pressed).
Proof.
  intros Hk Hp k'. rewrite elem_of_union, elem_of_singleton.
  intros [->|Hin]; [exact Hk|by apply Hp].
Qed.

Lemma model_keys_difference (k : Keyboard.Pressed)
    (pressed : gset Keyboard.Pressed) :
  model_keys pressed → model_keys (pressed ∖ {[ k ]}).
Proof.
  intros Hp k'. rewrite elem_of_difference. intros [Hin _]. by apply Hp.
Qed.

Lemma pressed_quiet (pressed : gset Keyboard.Pressed) (w : World) :
  Keyboard.pressedKeys (Keyboard.scene (Keyboard.quiet pressed w)) = pressed.
Proof. reflexivity. Qed.

Lemma handle_model_keys (host : Host) (switchId : string) (isSoundOn : bool)
    (input : Keyboard.Input) (sc : Keyboard.Scene) :
  Keyboard.on_model input → model_keys (Keyboard.pressedKeys sc) →
  model_keys
    (Keyboard.pressedKeys
       (Keyboard.scene (Keyboard.handle host switchId isSoundOn input sc))).
Proof.
  intros Hin Hsc. destruct input as [e|e|i|i|i]; cbn [Keyboard.handle].
  - unfold Keyboard.down.
    destruct (Keyboard.KEY_MAP_get (Keyboard.code e)) as [k|] eqn:Hk;
      [|exact Hsc].
    destruct (negb (Keyboard.repeat e)); [|exact Hsc].
    assert (model_keys ({[ k ]} ∪ Keyboard.pressedKeys sc)) as Hm
      by (apply model_keys_union; [by apply (KEY_MAP_get_model _ _ Hin)|done]).
    destruct isSoundOn; [by rewrite pressed_sounded|exact Hm].
  - unfold Keyboard.up.
    destruct (Keyboard.KEY_MAP_get (Keyboard.code e)) as [k|] eqn:Hk;
      [|exact Hsc].
    assert (model_keys (Keyboard.pressedKeys sc ∖ {[ k ]})) as Hm
      by (by apply model_keys_difference).
    destruct isSoundOn; [by rewrite pressed_sounded|exact Hm].
  - destruct (pressed_pointer host switchId isSoundOn i sc) as [-> _].
    apply model_keys_union; [by exists i|done].
  - destruct (pressed_pointer host switchId isSoundOn i sc) as [_ ->].
    by apply model_keys_difference.
  - by apply model_keys_difference.
Qed.

(** X14.  The pressed keys stay keys of the model: from a scene whose
    pressed keys are keycaps of the layout, after every sequence of key and
    pointer events on keys of the model every pressed key is the number of
    a keycap of the layout, whatever the engine does. *)
Theorem X14_pressed_keys_of_layout (host : Host) (switchId : string)
    (isSoundOn : bool) (inputs : list Keyboard.Input) (sc : Keyboard.Scene) :
  Forall Keyboard.on_model inputs →
  model_keys (Keyboard.pressedKeys sc) →
  model_keys
    (Keyboard.pressedKeys
       (Keyboard.handle_all host switchId isSoundOn inputs sc)).
Proof.
  intros Hin. revert sc. unfold Keyboard.handle_all.
  induction Hin as [|input inputs Hi _ IH]; intros sc Hsc; [exact Hsc|].
  cbn [foldl]. apply IH. by apply handle_model_keys.
Qed.

(** X14 for two keys held and one released, on a host without audio. *)
Lemma X14_pressed_keys_of_layout_witness :
  model_keys
    (Keyboard.pressedKeys
       (Keyboard.handle_all refusing "blue" true
          [Keyboard.KeyDown
             {| Keyboard.code := "KeyA"; Keyboard.repeat := false |};
           Keyboard.PointerDown 3;
           Keyboard.KeyUp
             {| Keyboard.code := "KeyA"; Keyboard.repeat := false |}]
          Keyboard.initial)).
Proof.
  apply X14_pressed_keys_of_layout.
  - repeat constructor; vm_compute; (lia || (intros H; discriminate H)).
  - intros k Hk. by apply not_elem_of_empty in Hk.
Defined.

Lemma selected_switch_recognized (state : Store.ConfiguratorState) :
  consistent state →
  recognized (Store.of_switches (Store.selectedOptions state)).
Proof.
  intros Hs. destruct (Hs Store.switches) as (o & Hf & _).
  apply find_option_Some in Hf. destruct Hf as [Hin Hid].
  cbn [Store.selected] in Hid. rewrite <- Hid. unfold recognized.
  cbn [Store.OPTIONS] in Hin.
  repeat (apply elem_of_cons in Hin; destruct Hin as [->|Hin];
          [cbn [Store.id]; rewrite !elem_of_cons; auto 10|]).
  by apply elem_of_nil in Hin.
Qed.

Lemma recognized_own (switchId : string) :
  recognized switchId → switchId ∉ Object_prototype.
Proof.
  unfold recognized. intros Hr.
  repeat (apply elem_of_cons in Hr; destruct Hr as [->|Hr];
          [vm_compute; intros H; discriminate H|]).
  by apply elem_of_nil in Hr.
Qed.

Lemma perform_available (host : Host) (call : Call) (w : World) :
  switch_of call ∉ Object_prototype → device_available host w = true →
  ∃ w2 out, perform host call w = Returns () w2 out ∧
            device_available host w2 = true.
Proof.
  intros Hs Ha.
  destruct (ensureCtx_available host w Ha) as (c & w1 & He & Hc & _).
  destruct (lookupProfile_own_or_default _ Hs) as (p & Hp & _).
  pose proof (perform_fields host call w) as Hf. rewrite He in Hf.
  assert (∃ w2 out, perform host call w = Returns () w2 out) as (w2 & out & Hr).
  { destruct call as [s|s]; cbn [perform switch_of] in *.
    - destruct (playDown_profile host _ _ _ _ _ _ He Hp) as [w2 ->]. eauto.
    - destruct (playUp_profile host _ _ _ _ _ _ He Hp) as [w2 ->]. eauto. }
  exists w2, out. split; [exact Hr|].
  rewrite Hr in Hf. cbn [world_of] in Hf. unfold engine_fields in Hf.
  assert (ctx w2 = ctx w1) as Hctx by congruence.
  unfold device_available. by rewrite Hctx, Hc.
Qed.

Lemma handle_available (host : Host) (switchId : string) (isSoundOn : bool)
    (input : Keyboard.Input) (sc : Keyboard.Scene) :
  switchId ∉ Object_prototype →
  device_available host (Keyboard.engine sc) = true →
  Keyboard.thrown (Keyboard.handle host switchId isSoundOn input sc) = None ∧
  device_available host
    (Keyboard.engine
       (Keyboard.scene (Keyboard.handle host switchId isSoundOn input sc))) =
  true.
Proof.
  intros Hs Ha.
  destruct (perform_available host (Down switchId) _ Hs Ha)
    as (wd & outd & Hd & Had).
  destruct (perform_available host (Up switchId) _ Hs Ha)
    as (wu & outu & Hu & Hau).
  cbn [perform] in Hd, Hu.
  destruct input as [e|e|i|i|i];
    unfold Keyboard.handle, Keyboard.down, Keyboard.up,
      Keyboard.handleKeyPointerDown, Keyboard.handleKeyPointerUp,
      Keyboard.handlePointerLeave;
    try destruct (Keyboard.KEY_MAP_get (Keyboard.code e));
    try destruct (negb (Keyboard.repeat e));
    destruct isSoundOn; rewrite ?Hd, ?Hu; split; (reflexivity || assumption).
Qed.

(** X15.  With every configuration that the store can reach, the handlers
    call the engine with the name of a profile of the table, never with a
    name that the table inherits: where the audio device is available
    (the context exists, or the host grants one of at least 10 Hz) no key
    or pointer event throws, and the device is still available after
    it. *)
Theorem X15_selected_switch_is_a_profile (host : Host)
    (actions : list Store.Action) (input : Keyboard.Input)
    (sc : Keyboard.Scene) :
  let state := Store.after actions Store.initial in
  device_available host (Keyboard.engine sc) = true →
  recognized (Store.of_switches (Store.selectedOptions state)) ∧
  Keyboard.thrown (Keyboard.wired host state input sc) = None ∧
  device_available host
    (Keyboard.engine (Keyboard.scene (Keyboard.wired host state input sc))) =
  true.
Proof.
  intros state Ha.
  assert (recognized (Store.of_switches (Store.selectedOptions state))) as Hr
    by (apply selected_switch_recognized, consistent_after,
          consistent_initial).
  split; [exact Hr|]. apply handle_available; [|exact Ha].
  by apply recognized_own.
Qed.

(** X15 for a click on a keycap after the brown switches were chosen. *)
Lemma X15_selected_switch_is_a_profile_witness :
  let state :=
    Store.after [Store.SelectOption Store.switches "brown"] Store.initial in
  Keyboard.thrown
    (Keyboard.wired (granting 48000 0.5) state (Keyboard.PointerDown 7)
       Keyboard.initial) = None.
Proof.
  intros state.
  destruct (X15_selected_switch_is_a_profile (granting 48000 0.5)
              [Store.SelectOption Store.switches "brown"]
              (Keyboard.PointerDown 7) Keyboard.initial)
    as (_ & H & _); [reflexivity|exact H].
Defined.

Lemma click_down_exists (host : Host) (p : SwitchProfile) (now : Q) (d : nat) :
  existsb is_click (click_down host p now d) =
  (if Qlt_le_dec 0 (clickFreq p) then true else false).
Proof. unfold click_down. by destruct (Qlt_le_dec 0 (clickFreq p)). Qed.

Lemma click_up_exists (host : Host) (p : SwitchProfile) (now : Q) (d : nat) :
  existsb is_click (click_up host p now d) =
  (if Qlt_le_dec 0 (clickFreq p) then true else false).
Proof. unfold click_up. by destruct (Qlt_le_dec 0 (clickFreq p)). Qed.

Lemma layers_click (host : Host) (p : SwitchProfile) (w1 : World) :
  existsb is_click (down_layers host p w1) =
  (if Qlt_le_dec 0 (clickFreq p) then true else false) ∧
  existsb is_click (up_layers host p w1) =
  (if Qlt_le_dec 0 (clickFreq p) then true else false).
Proof.
  unfold down_layers, up_layers.
  destruct (noiseBuffer w1); cbn [app existsb is_click orb];
    rewrite ?click_down_exists, ?click_up_exists; done.
Qed.

Lemma recognized_click (switchId : string) :
  recognized switchId →
  ∃ p, lookupProfile switchId = Profile p ∧
       (if Qlt_le_dec 0 (clickFreq p) then true else false) =
       bool_decide (switchId ∈ ["blue"; "brown"]).
Proof.
  unfold recognized. intros Hr.
  repeat (apply elem_of_cons in Hr; destruct Hr as [->|Hr];
          [eexists; split; [vm_compute; reflexivity|vm_compute; reflexivity]|]).
  by apply elem_of_nil in Hr.
Qed.

(** X16.  The click follows the switch that the store holds: with every
    configuration that the store can reach and the sound on, a press or a
    release of a keycap starts a click layer exactly when the switches
    chosen are the blue or the brown ones. *)
Theorem X16_click_of_selected_switch (host : Host)
    (actions : list Store.Action) (i : nat) (sc : Keyboard.Scene) :
  let state := Store.after actions Store.initial in
  let switchId := Store.of_switches (Store.selectedOptions state) in
  Store.soundEnabled state = true →
  device_available host (Keyboard.engine sc) = true →
  existsb is_click
    (layers (Keyboard.sound
               (Keyboard.wired host state (Keyboard.PointerDown i) sc))) =
  bool_decide (switchId ∈ ["blue"; "brown"]) ∧
  existsb is_click
    (layers (Keyboard.sound
               (Keyboard.wired host state (Keyboard.PointerUp i) sc))) =
  bool_decide (switchId ∈ ["blue"; "brown"]).
Proof.
  intros state switchId Hon Ha.
  assert (recognized switchId) as Hr
    by (apply selected_switch_recognized, consistent_after,
          consistent_initial).
  destruct (recognized_click _ Hr) as (p & Hp & Hclick).
  destruct (ensureCtx_available host _ Ha) as (c & w1 & He & _).
  destruct (layers_click host p w1) as [Hd Hu].
  pose proof (perform_layers host (Down switchId) _ _ _ _ _ He Hp) as Hld.
  pose proof (perform_layers host (Up switchId) _ _ _ _ _ He Hp) as Hlu.
  cbn [perform] in Hld, Hlu.
  unfold Keyboard.wired, Keyboard.handle, Keyboard.handleKeyPointerDown,
    Keyboard.handleKeyPointerUp.
  rewrite Hon. fold switchId.
  assert (∀ pressed o,
            Keyboard.sound (Keyboard.sounded pressed o) = effects_of o)
    as Hs by (by intros ? []).
  rewrite !Hs, Hld, Hlu, Hd, Hu. by split.
Qed.

(** X16 for the new store (red switches, no click) on a host with audio. *)
Lemma X16_click_of_selected_switch_witness :
  existsb is_click
    (layers (Keyboard.sound
               (Keyboard.wired (granting 48000 0.5)
                  (Store.after [] Store.initial)
                  (Keyboard.PointerDown 0) Keyboard.initial))) = false.
Proof.
  destruct (X16_click_of_selected_switch (granting 48000 0.5) [] 0
              Keyboard.initial) as [H _]; [reflexivity|reflexivity|].
  exact H.
Defined.

(** * Properties of the layout *)

Lemma layoutRow_length (nrows ri : nat) (cursor : Q) (widths : list Q) :
  length (Layout.layoutRow nrows ri cursor widths) = length widths.
Proof.
  revert cursor. induction widths as [|kw rest IH]; intros cursor; [done|].
  cbn [Layout.layoutRow length]. by rewrite IH.
Qed.

Lemma layoutRow_row (nrows ri : nat) (cursor : Q) (widths : list Q) :
  Forall (λ k, Layout.row k = ri) (Layout.layoutRow nrows ri cursor widths).
Proof.
  revert cursor. induction widths as [|kw rest IH]; intros cursor;
    cbn [Layout.layoutRow]; constructor; [reflexivity|apply IH].
Qed.

(** X17.  The keys of a row follow each other from left to right with the
    gap between them: whatever the widths of the row and wherever it
    starts, the row has one key for every width, all of them in that row
    and at the same depth, and between the right edge of a key and the
    left edge of the next one there is [KEY_GAP] (numbers are
    rationals). *)
Theorem X17_row_spacing (nrows ri : nat) (cursor : Q) (widths : list Q)
    (j : nat) (k k' : Layout.KeyData) :
  Layout.layoutRow nrows ri cursor widths !! j = Some k →
  Layout.layoutRow nrows ri cursor widths !! S j = Some k' →
  length (Layout.layoutRow nrows ri cursor widths) = length widths ∧
  Layout.row k = ri ∧ Layout.row k' = ri ∧
  Layout.z k' == Layout.z k ∧
  Layout.left k' - Layout.right k == Layout.KEY_GAP.
Proof.
  intros Hk Hk'. split; [apply layoutRow_length|].
  pose proof (layoutRow_row nrows ri cursor widths) as Hrow.
  rewrite Forall_lookup in Hrow.
  split; [apply (Hrow _ _ Hk)|]. split; [apply (Hrow _ _ Hk')|].
  clear Hrow. revert cursor j Hk Hk'.
  induction widths as [|kw rest IH]; intros cursor j Hk Hk'; [done|].
  destruct j as [|j].
  - destruct rest as [|kw' rest]; [done|].
    cbn [Layout.layoutRow] in Hk, Hk'.
    injection Hk as <-. injection Hk' as <-.
    unfold Layout.left, Layout.right. cbn [Layout.x Layout.w Layout.z].
    unfold Layout.UNIT, Layout.KEY_GAP, Layout.TOTAL_W. split; [reflexivity|].
    field.
  - cbn [Layout.layoutRow] in Hk, Hk'. apply (IH (cursor + kw) j Hk Hk').
Qed.

(** X17 for the first two keys of the bottom row. *)
Lemma X17_row_spacing_witness :
  ∃ k k',
    Layout.layoutRow 5 4 0 [1.25; 1.25; 1.25; 6.25; 1.25; 1.25; 1.25] !! 0%nat
    = Some k ∧
    Layout.layoutRow 5 4 0 [1.25; 1.25; 1.25; 6.25; 1.25; 1.25; 1.25] !! 1%nat
    = Some k' ∧
    Layout.left k' - Layout.right k == Layout.KEY_GAP.
Proof.
  eexists. eexists. split; [reflexivity|]. split; [reflexivity|].
  eapply (X17_row_spacing 5 4 0 [1.25; 1.25; 1.25; 6.25; 1.25; 1.25; 1.25] 0);
    reflexivity.
Defined.

(** X18.  The sixty keys of the layout stand on the case: every key lies
    within the width [bodyW] and the depth [bodyD] of the case, which is
    centered under the keys, its row has an offset in [ROW_Y] (the
    fallback [?? 0] of [baseY] is never taken), and at rest its underside
    is above the top of the case. *)
Theorem X18_keys_on_the_case :
  length Layout.generateKeys = 60%nat ∧
  Forall (λ k,
            - (Layout.bodyW / 2) < Layout.left k ∧
            Layout.right k < Layout.bodyW / 2 ∧
            - (Layout.bodyD / 2) < Layout.back k ∧
            Layout.front k < Layout.bodyD / 2 ∧
            is_Some (Layout.ROW_Y !! Layout.row k) ∧
            Layout.BODY_H / 2 < Layout.baseY k - Layout.KEY_H / 2)
    Layout.generateKeys.
Proof.
  split; [reflexivity|].
  let keys := eval vm_compute in Layout.generateKeys in
  change Layout.generateKeys with keys.
  repeat (apply Forall_cons; split;
          [repeat split; try (eexists; reflexivity); vm_compute; reflexivity|]).
  apply Forall_nil. exact I.
Qed.
